(** * video-server: the range-request streaming handler of [server.js]

    A shallow embedding of the two Express handlers of [server.js]
    ([GET /api/videos] and [GET /api/stream/:name]) together with the
    Node.js built-ins they call, of the list rendering of
    [public/app.js] ([extOf], [setStatus], [clearLists], [renderList],
    [loadVideos]), and the properties of the handlers and of the page.

    Conventions.
    - A JavaScript string is a [string] of bytes (its UTF-8 encoding).  The
      patterns and literals of [server.js] are ASCII, so matching on bytes
      and matching on UTF-16 code units agree.
    - A JavaScript number that holds a file offset is a [Z].  [stat.size]
      is a safe integer; [parseInt] of a longer digit string rounds, but
      rounding is monotone and fixes every safe integer, so each comparison
      against [fileSize] below has the value the code computes, and every
      offset that passes validation is exact.
    - The file system is one snapshot per request: a finite map from
      absolute paths to nodes.  The operations a handler performs on it are
      recorded, in order, in a trace. *)

From Stdlib Require Import ZArith Ascii String List Lia.
From Stdlib Require Import Decimal DecimalString DecimalPos.
From Stdlib Require Strings.Byte.
From stdpp Require Import base tactics list strings gmap sorting.

Local Open Scope Z_scope.

(** ** Strings and characters *)

Module Chars.

Definition code (c : ascii) : Z := Z.of_N (N_of_ascii c).

(** [\d] of a JavaScript regular expression: the ten ASCII digits. *)
Definition is_digit (c : ascii) : bool :=
  (48 <=? code c) && (code c <=? 57).

Definition digit_value (c : ascii) : Z := code c - 48.

Definition is_upper (c : ascii) : bool :=
  (65 <=? code c) && (code c <=? 90).

Definition to_lower (c : ascii) : ascii :=
  if is_upper c then ascii_of_N (N_of_ascii c + 32) else c.

Definition is_slash (c : ascii) : bool := code c =? 47.
Definition is_dot (c : ascii) : bool := code c =? 46.

End Chars.

(** [s.slice(start, end)] for [0 <= start <= end <= s.length]. *)
Definition slice (start end_ : Z) (s : string) : string :=
  String.substring (Z.to_nat start) (Z.to_nat (end_ - start)) s.

Definition str_length (s : string) : Z := Z.of_nat (String.length s).

Definition all_digits (s : string) : bool :=
  forallb Chars.is_digit (list_ascii_of_string s).

(** [String.prototype.toLowerCase].  Only ASCII letters are mapped.  The
    full Unicode mapping sends no other character to a letter of [".mp4"],
    [".webm"], [".jpg"] or [".jpeg"], so every comparison of a lower-cased
    extension made by [server.js] has the same outcome. *)
Fixpoint toLowerCase (s : string) : string :=
  match s with
  | EmptyString => EmptyString
  | String c s' => String (Chars.to_lower c) (toLowerCase s')
  end.

(** ** [path] (POSIX flavour) *)

Module path.

Record basename_state := {
  bn_start : Z;
  bn_end : Z;
  bn_matchedSlash : bool
}.

(** The loop of [path.posix.basename]: [i] runs from [path.length - 1]
    down to [0]; the characters are supplied in that order. *)
Fixpoint basename_loop (chars : list ascii) (i : Z) (st : basename_state)
  : basename_state :=
  match chars with
  | [] => st
  | c :: rest =>
      if Chars.is_slash c then
        if negb (bn_matchedSlash st) then
          {| bn_start := i + 1; bn_end := bn_end st;
             bn_matchedSlash := bn_matchedSlash st |}
        else basename_loop rest (i - 1) st
      else if bn_end st =? -1 then
        basename_loop rest (i - 1)
          {| bn_start := bn_start st; bn_end := i + 1;
             bn_matchedSlash := false |}
      else basename_loop rest (i - 1) st
  end.

Definition basename (p : string) : string :=
  let st := basename_loop (rev (list_ascii_of_string p)) (str_length p - 1)
              {| bn_start := 0; bn_end := -1; bn_matchedSlash := true |} in
  if bn_end st =? -1 then EmptyString
  else slice (bn_start st) (bn_end st) p.

Record extname_state := {
  ex_startDot : Z;
  ex_startPart : Z;
  ex_end : Z;
  ex_matchedSlash : bool;
  ex_preDotState : Z
}.

(** The loop of [path.posix.extname], in the same style. *)
Fixpoint extname_loop (chars : list ascii) (i : Z) (st : extname_state)
  : extname_state :=
  match chars with
  | [] => st
  | c :: rest =>
      if Chars.is_slash c then
        if negb (ex_matchedSlash st) then
          {| ex_startDot := ex_startDot st; ex_startPart := i + 1;
             ex_end := ex_end st; ex_matchedSlash := ex_matchedSlash st;
             ex_preDotState := ex_preDotState st |}
        else extname_loop rest (i - 1) st
      else
        let st1 :=
          if ex_end st =? -1 then
            {| ex_startDot := ex_startDot st; ex_startPart := ex_startPart st;
               ex_end := i + 1; ex_matchedSlash := false;
               ex_preDotState := ex_preDotState st |}
          else st in
        let st2 :=
          if Chars.is_dot c then
            if ex_startDot st1 =? -1 then
              {| ex_startDot := i; ex_startPart := ex_startPart st1;
                 ex_end := ex_end st1; ex_matchedSlash := ex_matchedSlash st1;
                 ex_preDotState := ex_preDotState st1 |}
            else if negb (ex_preDotState st1 =? 1) then
              {| ex_startDot := ex_startDot st1; ex_startPart := ex_startPart st1;
                 ex_end := ex_end st1; ex_matchedSlash := ex_matchedSlash st1;
                 ex_preDotState := 1 |}
            else st1
          else if negb (ex_startDot st1 =? -1) then
            {| ex_startDot := ex_startDot st1; ex_startPart := ex_startPart st1;
               ex_end := ex_end st1; ex_matchedSlash := ex_matchedSlash st1;
               ex_preDotState := -1 |}
          else st1 in
        extname_loop rest (i - 1) st2
  end.

Definition extname (p : string) : string :=
  let st := extname_loop (rev (list_ascii_of_string p)) (str_length p - 1)
              {| ex_startDot := -1; ex_startPart := 0; ex_end := -1;
                 ex_matchedSlash := true; ex_preDotState := 0 |} in
  if (ex_startDot st =? -1) || (ex_end st =? -1)
     || (ex_preDotState st =? 0)
     || ((ex_preDotState st =? 1)
         && (ex_startDot st =? ex_end st - 1)
         && (ex_startDot st =? ex_startPart st + 1))
  then EmptyString
  else slice (ex_startDot st) (ex_end st) p.

(** [path.join(dir, name)] where [dir] is a normalised absolute directory
    without a trailing slash and [name] is one path segment other than
    ["."] and [".."]: normalisation has nothing to do.  Both uses in
    [server.js] are of this kind (the literals ["videos"] and
    ["pictures"], and a slash-free name with an allowed extension). *)
Definition join (dir name : string) : string := dir +:+ "/" +:+ name.

End path.

(** ** Regular expression, [parseInt], number formatting *)

(** The longest run of digits at the head of [s], and what follows it. *)
Fixpoint span_digits (s : string) : string * string :=
  match s with
  | EmptyString => (EmptyString, EmptyString)
  | String c s' =>
      if Chars.is_digit c then
        let '(d, r) := span_digits s' in (String c d, r)
      else (EmptyString, s)
  end.

Fixpoint strip_prefix (p s : string) : option string :=
  match p, s with
  | EmptyString, _ => Some s
  | String a p', String b s' =>
      if Ascii.eqb a b then strip_prefix p' s' else None
  | String _ _, EmptyString => None
  end.

(** One attempt, at the head of [s], of the pattern that [server.js] gives
    to [range.match]: the literal [bytes=], a group of one or more [\d], a
    hyphen, a group of zero or more [\d].  The result is the pair of
    captures.  Both quantifiers are greedy.
    Giving back digits of the first group would leave a digit where "-" is
    required, so the longest run is the only candidate; the second group
    ends the pattern, so its longest run is the one the matcher keeps. *)
Definition range_match_here (s : string) : option (string * string) :=
  match strip_prefix "bytes=" s with
  | None => None
  | Some r =>
      let '(m1, r1) := span_digits r in
      match m1, r1 with
      | String _ _, String c r2 =>
          if Ascii.eqb c "-" then Some (m1, fst (span_digits r2)) else None
      | _, _ => None
      end
  end.

(** [range.match] of that pattern: it has no anchors, so the attempt is
    made at every index, leftmost first. *)
Fixpoint range_match (s : string) : option (string * string) :=
  match range_match_here s with
  | Some g => Some g
  | None =>
      match s with
      | EmptyString => None
      | String _ s' => range_match s'
      end
  end.

Fixpoint parseInt_loop (s : string) (acc : Z) : Z :=
  match s with
  | EmptyString => acc
  | String c s' =>
      if Chars.is_digit c
      then parseInt_loop s' (10 * acc + Chars.digit_value c)
      else acc
  end.

(** [parseInt(s, 10)] for a string that starts with a digit, the only kind
    [server.js] passes (the first capture, or a non-empty second
    capture): the value of the leading run of digits. *)
Definition parseInt (s : string) : Z := parseInt_loop s 0.

(** Template-literal formatting [`${n}`] of an integer. *)
Definition number_to_string (n : Z) : string :=
  NilZero.string_of_int (Z.to_int n).

(** ** File system *)

Inductive errno := ENOENT | EACCES | ENOTDIR | EISDIR | EIO.

Inductive dirent_kind := RegularFile | Directory | SymbolicLink | OtherKind.

Record Dirent := { d_name : string; d_kind : dirent_kind }.

Definition isFile (e : Dirent) : bool :=
  match d_kind e with RegularFile => true | _ => false end.

(** What lives at a path.  [File data readable]: [stat] needs no permission
    on the file itself, opening it for reading does.  [Faulty e]: every
    operation on the path fails with [e]. *)
Inductive node :=
  | File (data : list Byte.byte) (readable : bool)
  | Dir (size : Z) (entries : list Dirent)
  | Faulty (e : errno).

Abbreviation filesystem := (gmap string node).

Definition file_size (data : list Byte.byte) : Z := Z.of_nat (length data).

Definition stat (fs : filesystem) (p : string) : errno + Z :=
  match fs !! p with
  | None => inl ENOENT
  | Some (File data _) => inr (file_size data)
  | Some (Dir size _) => inr size
  | Some (Faulty e) => inl e
  end.

Definition open_read (fs : filesystem) (p : string)
  : errno + list Byte.byte :=
  match fs !! p with
  | None => inl ENOENT
  | Some (File data true) => inr data
  | Some (File _ false) => inl EACCES
  | Some (Dir _ _) => inl EISDIR
  | Some (Faulty e) => inl e
  end.

Definition readdir (fs : filesystem) (p : string) : errno + list Dirent :=
  match fs !! p with
  | None => inl ENOENT
  | Some (File _ _) => inl ENOTDIR
  | Some (Dir _ entries) => inr entries
  | Some (Faulty e) => inl e
  end.

(** The bytes a read stream delivers: the whole file, or the inclusive
    interval given as [{ start, end }]. *)
Definition stream_bytes (data : list Byte.byte) (opts : option (Z * Z))
  : list Byte.byte :=
  match opts with
  | None => data
  | Some (start, end_) =>
      take (Z.to_nat (end_ - start + 1)) (drop (Z.to_nat start) data)
  end.

(** ** Effects: a trace of file-system operations, and exceptions *)

Inductive fs_op :=
  | OpStat (p : string)
  | OpReaddir (p : string)
  | OpCreateReadStream (p : string) (opts : option (Z * Z)).

Inductive exn :=
  | URIError
  | SystemError (code : errno).

Definition IO (A : Type) : Type := list fs_op -> (exn + A) * list fs_op.

#[global] Instance IO_ret : MRet IO := fun A a t => (inr a, t).

#[global] Instance IO_bind : MBind IO := fun A B k m t =>
  match m t with
  | (inr a, t') => k a t'
  | (inl e, t') => (inl e, t')
  end.

Definition throw {A} (e : exn) : IO A := fun t => (inl e, t).

(** [try { m } catch (err) { h err }] *)
Definition try_catch {A} (m : IO A) (h : exn -> IO A) : IO A := fun t =>
  match m t with
  | (inr a, t') => (inr a, t')
  | (inl e, t') => h e t'
  end.

(** [Promise.all([m1, m2])]: both operations are started whatever the other
    does; the result is rejected when either is. *)
Definition promise_all2 {A B} (m1 : IO A) (m2 : IO B) : IO (A * B) := fun t =>
  let '(r1, t1) := m1 t in
  let '(r2, t2) := m2 t1 in
  match r1, r2 with
  | inr a, inr b => (inr (a, b), t2)
  | inl e, _ => (inl e, t2)
  | _, inl e => (inl e, t2)
  end.

Definition run {A} (m : IO A) : (exn + A) * list fs_op := m [].

Definition lift_errno {A} (r : errno + A) : exn + A :=
  match r with
  | inl e => inl (SystemError e)
  | inr a => inr a
  end.

Definition fsp_stat (fs : filesystem) (p : string) : IO Z := fun t =>
  (lift_errno (stat fs p), t ++ [OpStat p]).

Definition fsp_readdir (fs : filesystem) (p : string) : IO (list Dirent) :=
  fun t => (lift_errno (readdir fs p), t ++ [OpReaddir p]).

(** What [fs.createReadStream(p, opts).pipe(res)] writes to the response
    under the handler's ["error"] listener.  The stream opens the file
    lazily, after the response head has been written; an error ends the
    response with what was piped so far, which for a failed open is
    nothing.  A file of this file system fails at the open or not at all:
    once opened, it is read to the end of the interval. *)
Definition piped_bytes (fs : filesystem) (p : string) (opts : option (Z * Z))
  : list Byte.byte :=
  match open_read fs p with
  | inr data => stream_bytes data opts
  | inl _ => []
  end.

Definition createReadStream_pipe (fs : filesystem) (p : string)
    (opts : option (Z * Z)) : IO (list Byte.byte) := fun t =>
  (inr (piped_bytes fs p opts), t ++ [OpCreateReadStream p opts]).

(** [Number.MAX_SAFE_INTEGER] *)
Definition MAX_SAFE_INTEGER : Z := 2 ^ 53 - 1.

(** The check of its options that [fs.createReadStream] makes before
    anything else: [start] and [end], when given, are integers from [0] to
    [Number.MAX_SAFE_INTEGER], and [start <= end].  A call that fails it
    throws [ERR_OUT_OF_RANGE] on the spot.  [createReadStream_pipe] above
    is a call that passes it; the handler makes the call after
    [res.writeHead], where its [catch] block could not answer any more. *)
Definition createReadStream_accepts (opts : option (Z * Z)) : bool :=
  match opts with
  | None => true
  | Some (start, end_) =>
      (0 <=? start) && (start <=? MAX_SAFE_INTEGER)
      && (0 <=? end_) && (end_ <=? MAX_SAFE_INTEGER)
      && (start <=? end_)
  end.

(** ** Responses *)

Inductive header_value :=
  | HStr (s : string)
  | HNum (n : Z).

Inductive body_t :=
  | Text (s : string)
  | Stream (bytes : list Byte.byte)
  | JsonMedia (videos pictures : list string)
  | JsonError (msg : string).

(** The status, the headers the handler sets itself (Express adds its own
    to [send] and [json] responses), and the body. *)
Record response := {
  status : Z;
  headers : list (string * header_value);
  body : body_t
}.

(** [res.status(code).send(msg)] *)
Definition send (code : Z) (msg : string) : response :=
  {| status := code; headers := []; body := Text msg |}.

(** What the stream handler reads of a request: [req.params.name], the
    route parameter as Express hands it over (Express has decoded the URL
    once already), and [req.headers.range], [None] for [undefined]. *)
Record request := {
  params_name : string;
  headers_range : option string
}.

(** ** The platform

    What [server.js] takes from its environment and is not fixed by the
    code: the directory of the script, the URI decoder (it returns [None]
    where the built-in throws [URIError]) and the collation order of the
    host's locale. *)
Class Platform := {
  dirname : string;
  decodeURIComponent : string -> option string;
  localeCompare : string -> string -> Z
}.

(** A decoder for names whose escapes are single bytes: each ["%XY"]
    becomes the byte [XY]; a ["%"] that is not followed by two hexadecimal
    digits is an error.  (The built-in also rejects escaped bytes that do
    not form well-formed UTF-8.) *)
Definition hex_value (c : ascii) : option Z :=
  let n := Chars.code c in
  if Chars.is_digit c then Some (n - 48)
  else if (97 <=? n) && (n <=? 102) then Some (n - 87)
  else if (65 <=? n) && (n <=? 70) then Some (n - 55)
  else None.

Fixpoint percent_decode (s : string) : option string :=
  match s with
  | EmptyString => Some EmptyString
  | String c s1 =>
      if Ascii.eqb c "%" then
        match s1 with
        | String h (String l s2) =>
            match hex_value h, hex_value l with
            | Some a, Some b =>
                option_map (String (ascii_of_N (Z.to_N (16 * a + b))))
                  (percent_decode s2)
            | _, _ => None
            end
        | _ => None
        end
      else option_map (String c) (percent_decode s1)
  end.

(** Comparison of strings byte by byte, as a [compareFunction] result. *)
Definition byte_compare (a b : string) : Z :=
  match String.compare a b with
  | Lt => -1
  | Eq => 0
  | Gt => 1
  end.

(** A platform to run the handlers on: the server installed in [/srv],
    the byte-wise decoder and order. *)
Definition demo_platform : Platform := {|
  dirname := "/srv";
  decodeURIComponent := percent_decode;
  localeCompare := byte_compare
|}.

(** ** [server.js] *)

Section Server.

Context `{Platform}.

Definition VIDEOS_DIR : string := path.join dirname "videos".
Definition PICTURES_DIR : string := path.join dirname "pictures".

Definition VIDEO_EXTENSIONS : gset string := {[ ".mp4"; ".webm" ]}.
Definition IMAGE_EXTENSIONS : gset string := {[ ".jpg"; ".jpeg" ]}.
Definition ALLOWED_EXTENSIONS : gset string :=
  VIDEO_EXTENSIONS ∪ IMAGE_EXTENSIONS.

(** [set.has(x)] *)
Definition has (set : gset string) (x : string) : bool :=
  bool_decide (x ∈ set).

(** The order [(a, b) => a.localeCompare(b)] sorts by. *)
Definition locale_le (a b : string) : Prop := localeCompare a b <= 0.

#[global] Instance locale_le_dec : RelDecision locale_le.
Proof. intros a b. unfold locale_le. apply Z.le_dec. Defined.

(** [names.sort((a, b) => a.localeCompare(b))]: a stable merge sort. *)
Definition sort_names (names : list string) : list string :=
  merge_sort locale_le names.

(** [entries.filter(e => e.isFile()).map(e => e.name)
           .filter(name => allowed.has(path.extname(name).toLowerCase()))] *)
Definition media_files (allowed : gset string) (entries : list Dirent)
  : list string :=
  filter (fun name => toLowerCase (path.extname name) ∈ allowed)
    (d_name <$> filter (fun e => isFile e = true) entries).

(** [fsp.readdir(dir, { withFileTypes: true }).catch(...)]: a missing
    directory reads as empty, any other error is thrown again. *)
Definition readdir_or_empty (fs : filesystem) (dir : string)
  : IO (list Dirent) :=
  try_catch (fsp_readdir fs dir)
    (fun err =>
       match err with
       | SystemError ENOENT => mret []
       | _ => throw err
       end).

(** The [try] block of [GET /api/videos]. *)
Definition list_try (fs : filesystem) : IO response :=
  '(videoEntries, pictureEntries) ←
    promise_all2 (readdir_or_empty fs VIDEOS_DIR)
                 (readdir_or_empty fs PICTURES_DIR);
  let videoFiles := media_files VIDEO_EXTENSIONS videoEntries in
  let pictureFiles := media_files IMAGE_EXTENSIONS pictureEntries in
  mret {| status := 200; headers := [];
          body := JsonMedia (sort_names videoFiles)
                            (sort_names pictureFiles) |}.

Definition list_handler (fs : filesystem) : IO response :=
  try_catch (list_try fs)
    (fun _ =>
       mret {| status := 500; headers := [];
               body := JsonError "Could not read media folders." |}).

Definition getContentType (fileName : string) : string :=
  let ext := toLowerCase (path.extname fileName) in
  if String.eqb ext ".mp4" then "video/mp4"
  else if String.eqb ext ".webm" then "video/webm"
  else if String.eqb ext ".jpg" || String.eqb ext ".jpeg" then "image/jpeg"
  else "application/octet-stream".

(** [path.join(baseDir, safeName)] with [baseDir] chosen by extension. *)
Definition videoPath (safeName : string) : string :=
  let ext := toLowerCase (path.extname safeName) in
  let baseDir := if has VIDEO_EXTENSIONS ext then VIDEOS_DIR
                 else PICTURES_DIR in
  path.join baseDir safeName.

(** [match[2] ? parseInt(match[2], 10) : fileSize - 1] *)
Definition range_end (m2 : string) (fileSize : Z) : Z :=
  match m2 with
  | String _ _ => parseInt m2
  | EmptyString => fileSize - 1
  end.

(** [start >= fileSize || end >= fileSize || start > end] *)
Definition unsatisfiable (start end_ fileSize : Z) : bool :=
  (start >=? fileSize) || (end_ >=? fileSize) || (start >? end_).

(** The headers of a 206 response. *)
Definition partial_head (safeName : string) (start end_ fileSize : Z)
  : list (string * header_value) :=
  let chunkSize := end_ - start + 1 in
  [ ("Content-Range",
     HStr ("bytes " +:+ number_to_string start +:+ "-"
           +:+ number_to_string end_ +:+ "/"
           +:+ number_to_string fileSize));
    ("Accept-Ranges", HStr "bytes");
    ("Content-Length", HNum chunkSize);
    ("Content-Type", HStr (getContentType safeName)) ].

(** The headers of a 200 response. *)
Definition full_head (safeName : string) (fileSize : Z)
  : list (string * header_value) :=
  [ ("Content-Length", HNum fileSize);
    ("Content-Type", HStr (getContentType safeName)) ].

(** The branch taken when the [Range] header is truthy. *)
Definition stream_range (fs : filesystem) (safeName : string)
    (fileSize : Z) (range : string) : IO response :=
  match range_match range with
  | None => mret (send 416 "Malformed Range header.")
  | Some (m1, m2) =>
      let start := parseInt m1 in
      let end_ := range_end m2 fileSize in
      if unsatisfiable start end_ fileSize
      then mret (send 416 "Requested range not satisfiable.")
      else
        bytes ← createReadStream_pipe fs (videoPath safeName)
                  (Some (start, end_));
        mret {| status := 206;
                headers := partial_head safeName start end_ fileSize;
                body := Stream bytes |}
  end.

(** The branch taken otherwise: the whole file. *)
Definition stream_full (fs : filesystem) (safeName : string)
    (fileSize : Z) : IO response :=
  bytes ← createReadStream_pipe fs (videoPath safeName) None;
  mret {| status := 200; headers := full_head safeName fileSize;
          body := Stream bytes |}.

(** The [try] block of [GET /api/stream/:name].  [if (range)] holds for
    a header that is present and not the empty string. *)
Definition stream_try (fs : filesystem) (req : request) : IO response :=
  requestedName ←
    match decodeURIComponent (params_name req) with
    | Some s => mret s
    | None => throw URIError
    end;
  let safeName := path.basename requestedName in
  if negb (String.eqb safeName requestedName) then
    mret (send 400 "Invalid file name.")
  else
    let ext := toLowerCase (path.extname safeName) in
    if negb (has ALLOWED_EXTENSIONS ext) then
      mret (send 415 "Unsupported media type.")
    else
      fileSize ← fsp_stat fs (videoPath safeName);
      let range := headers_range req in
      match range with
      | Some (String c r) => stream_range fs safeName fileSize (String c r)
      | Some EmptyString | None => stream_full fs safeName fileSize
      end.

Definition stream_handler (fs : filesystem) (req : request) : IO response :=
  try_catch (stream_try fs req)
    (fun err =>
       match err with
       | SystemError ENOENT => mret (send 404 "Not found.")
       | _ => mret (send 500 "Server error.")
       end).

(** Serving one request: the response, and the file-system operations
    performed for it. *)
Definition serve (m : IO response) : option response * list fs_op :=
  match run m with
  | (inr r, t) => (Some r, t)
  | (inl _, t) => (None, t)
  end.

End Server.

(** ** Vocabulary of the statements *)

(** The name [raw] of a request decodes to [name], which passes both
    checks of the handler. *)
Definition accepted_name `{Platform} (raw name : string) : Prop :=
  decodeURIComponent raw = Some name
  /\ path.basename name = name
  /\ toLowerCase (path.extname name) ∈ ALLOWED_EXTENSIONS.

(** The text of a [Range] header for the bytes from [a] to [b], or from
    [a] to the end of the file. *)
Definition range_header (a : Z) (b : option Z) : string :=
  "bytes=" +:+ number_to_string a +:+ "-"
  +:+ match b with Some b => number_to_string b | None => "" end.

(** The request for [/api/stream/<name>] with the given [Range] header. *)
Definition mk_request (name : string) (range : option string) : request :=
  {| params_name := name; headers_range := range |}.

(** The pattern occurs somewhere in [s]. *)
Definition range_pattern_occurs (s : string) : Prop :=
  exists pre d1 rest,
    s = pre +:+ "bytes=" +:+ d1 +:+ "-" +:+ rest
    /\ d1 <> "" /\ all_digits d1 = true.

(** The characters hold no slash. *)
Definition no_slash (chars : list ascii) : bool :=
  forallb (fun c => negb (Chars.is_slash c)) chars.

(** The string holds no letter [b]. *)
Definition no_b (s : string) : bool :=
  forallb (fun c => negb (Ascii.eqb c "b")) (list_ascii_of_string s).

(** The bytes a client keeps from an answer to a range request: the body
    of a 206, nothing from any other answer. *)
Definition ok_body (out : option response * list fs_op) : list Byte.byte :=
  match out.1 with
  | Some r =>
      if status r =? 206
      then match body r with Stream bytes => bytes | _ => [] end
      else []
  | None => []
  end.

(** The request for the bytes of the half-open interval [[a, b)]. *)
Definition interval_request (raw : string) (a b : Z) : request :=
  mk_request raw (Some (range_header a (Some (b - 1)))).

(** The outcomes of [GET /api/stream/:name], one constructor per path
    through the handler: the response and the file-system trace. *)
Inductive stream_outcome `{Platform} (fs : filesystem) (raw : string)
    (range : option string) : option response * list fs_op -> Prop :=
  | out_undecodable :
      decodeURIComponent raw = None ->
      stream_outcome fs raw range (Some (send 500 "Server error."), [])
  | out_invalid_name name :
      decodeURIComponent raw = Some name ->
      path.basename name <> name ->
      stream_outcome fs raw range (Some (send 400 "Invalid file name."), [])
  | out_unsupported name :
      decodeURIComponent raw = Some name ->
      path.basename name = name ->
      toLowerCase (path.extname name) ∉ ALLOWED_EXTENSIONS ->
      stream_outcome fs raw range
        (Some (send 415 "Unsupported media type."), [])
  | out_stat_error name e :
      accepted_name raw name ->
      stat fs (videoPath name) = inl e ->
      stream_outcome fs raw range
        (Some (match e with
               | ENOENT => send 404 "Not found."
               | _ => send 500 "Server error."
               end),
         [OpStat (videoPath name)])
  | out_full name size :
      accepted_name raw name ->
      stat fs (videoPath name) = inr size ->
      range = None \/ range = Some "" ->
      stream_outcome fs raw range
        (Some {| status := 200; headers := full_head name size;
                 body := Stream (piped_bytes fs (videoPath name) None) |},
         [OpStat (videoPath name); OpCreateReadStream (videoPath name) None])
  | out_malformed name size h :
      accepted_name raw name ->
      stat fs (videoPath name) = inr size ->
      range = Some h -> h <> "" ->
      range_match h = None ->
      stream_outcome fs raw range
        (Some (send 416 "Malformed Range header."), [OpStat (videoPath name)])
  | out_unsatisfiable name size h m1 m2 :
      accepted_name raw name ->
      stat fs (videoPath name) = inr size ->
      range = Some h ->
      range_match h = Some (m1, m2) ->
      unsatisfiable (parseInt m1) (range_end m2 size) size = true ->
      stream_outcome fs raw range
        (Some (send 416 "Requested range not satisfiable."),
         [OpStat (videoPath name)])
  | out_partial name size h m1 m2 :
      accepted_name raw name ->
      stat fs (videoPath name) = inr size ->
      range = Some h ->
      range_match h = Some (m1, m2) ->
      unsatisfiable (parseInt m1) (range_end m2 size) size = false ->
      stream_outcome fs raw range
        (Some {| status := 206;
                 headers := partial_head name (parseInt m1)
                              (range_end m2 size) size;
                 body := Stream (piped_bytes fs (videoPath name)
                                   (Some (parseInt m1, range_end m2 size))) |},
         [OpStat (videoPath name);
          OpCreateReadStream (videoPath name)
            (Some (parseInt m1, range_end m2 size))]).

(** ** A demonstration installation *)

(** Five bytes of content, a directory of pictures, and the file system
    of a server installed in [/srv]. *)
Definition demo_data : list Byte.byte :=
  [Byte.x61; Byte.x62; Byte.x63; Byte.x64; Byte.x65].

Definition demo_pictures : list Dirent :=
  [ {| d_name := "b.JPG"; d_kind := RegularFile |};
    {| d_name := "a.jpeg"; d_kind := RegularFile |};
    {| d_name := "c.jpg"; d_kind := Directory |};
    {| d_name := "d.png"; d_kind := RegularFile |} ].

Definition demo_fs : filesystem :=
  {[ "/srv/videos/a.mp4" := File demo_data true;
     "/srv/videos/locked.mp4" := File demo_data false;
     "/srv/videos/empty.mp4" := File [] true;
     "/srv/pictures" := Dir 4096 demo_pictures ]}.

(** A library with both media directories and some of their files. *)
Definition demo_videos : list Dirent :=
  [ {| d_name := "clip.webm"; d_kind := RegularFile |};
    {| d_name := "a.mp4"; d_kind := RegularFile |};
    {| d_name := "notes.txt"; d_kind := RegularFile |};
    {| d_name := "link.mp4"; d_kind := SymbolicLink |} ].

Definition demo_library : filesystem :=
  {[ "/srv/videos" := Dir 4096 demo_videos;
     "/srv/pictures" := Dir 4096 demo_pictures;
     "/srv/videos/a.mp4" := File demo_data true;
     "/srv/pictures/a.jpeg" := File demo_data true ]}.

(** An installation whose one video cannot be looked up. *)
Definition demo_faulty : filesystem :=
  {[ "/srv/videos/a.mp4" := Faulty EIO ]}.

(** ** Further vocabulary *)

(** The path a file-system operation works on. *)
Definition op_path (op : fs_op) : string :=
  match op with
  | OpStat p => p
  | OpReaddir p => p
  | OpCreateReadStream p _ => p
  end.

(** [headers[key]] of a response head written by [res.writeHead]. *)
Fixpoint get_header (key : string) (hs : list (string * header_value))
  : option header_value :=
  match hs with
  | [] => None
  | (k, v) :: rest => if String.eqb k key then Some v else get_header key rest
  end.

(** A file system all of whose sizes are safe integers, so that
    [stat.size] is the size and not a rounding of it. *)
Definition safe_sizes (fs : filesystem) : Prop :=
  forall p size, stat fs p = inr size -> size <= MAX_SAFE_INTEGER.

#[global] Instance dirent_kind_eq_dec : EqDecision dirent_kind.
Proof. solve_decision. Defined.

(** What [readdir_or_empty] makes of a media directory: its entries, or
    none when it does not exist. *)
Definition root_entries (fs : filesystem) (dir : string)
    (entries : list Dirent) : Prop :=
  readdir fs dir = inl ENOENT /\ entries = []
  \/ readdir fs dir = inr entries.

(** ** [public/app.js]: the badge of a name *)

Definition char_to_upper (c : ascii) : ascii :=
  if (97 <=? Chars.code c) && (Chars.code c <=? 122)
  then ascii_of_N (N_of_ascii c - 32) else c.

(** [String.prototype.toUpperCase], on ASCII letters as [toLowerCase]
    above.  [app.js] applies it to what follows the last dot of a listed
    name; the names the server lists have an ASCII extension, on which the
    full Unicode mapping is this one. *)
Fixpoint toUpperCase (s : string) : string :=
  match s with
  | EmptyString => EmptyString
  | String c s' => String (char_to_upper c) (toUpperCase s')
  end.

(** [s.lastIndexOf(".")], scanning from index [i] with the last index seen
    so far; [-1] when there is none. *)
Fixpoint lastIndexOf_dot_from (s : string) (i last : Z) : Z :=
  match s with
  | EmptyString => last
  | String c s' =>
      lastIndexOf_dot_from s' (i + 1) (if Chars.is_dot c then i else last)
  end.

Definition lastIndexOf_dot (s : string) : Z := lastIndexOf_dot_from s 0 (-1).

Definition extOf (fileName : string) : string :=
  let i := lastIndexOf_dot fileName in
  if i >=? 0
  then toUpperCase (slice (i + 1) (str_length fileName) fileName)
  else "".

Definition no_dot (chars : list ascii) : bool :=
  forallb (fun c => negb (Chars.is_dot c)) chars.

(** ** [public/app.js]: the page *)

(** An [<li>] of one of the two lists: the placeholder of an empty list,
    or the button of a name with its badge and the viewer its click
    handler selects ([asImage]). *)
Inductive list_item :=
  | Placeholder (text : string)
  | MediaItem (name badge : string) (asImage : bool).

(** The elements [loadVideos] writes to: the status line with its
    [display] style, and the children of the two lists. *)
Record page := {
  status_text : string;
  status_display : string;
  videoList : list list_item;
  picturesList : list list_item
}.

Definition setStatus (text : string) (p : page) : page :=
  {| status_text := text;
     status_display := match text with
                       | String _ _ => "block"
                       | EmptyString => "none"
                       end;
     videoList := videoList p;
     picturesList := picturesList p |}.

Definition clearLists (p : page) : page :=
  {| status_text := status_text p;
     status_display := status_display p;
     videoList := [];
     picturesList := [] |}.

(** The children [renderList] leaves in a list element. *)
Definition renderList (names : list string) (asImage : bool)
    (emptyText : string) : list list_item :=
  match names with
  | [] => [Placeholder emptyText]
  | _ :: _ => (fun name => MediaItem name (extOf name) asImage) <$> names
  end.

(** What [fetch("/api/videos")] resolves to, or its rejection. *)
Inductive fetched :=
  | FetchRejected
  | FetchResponse (r : response).

(** [res.ok] *)
Definition response_ok (r : response) : bool :=
  (200 <=? status r) && (status r <=? 299).

(** [const { videos = [], pictures = [] } = await res.json()] for the two
    bodies the listing endpoint sends; an object without the two keys
    gives the defaults.  The other bodies are those of the stream
    endpoint, which this request does not reach; they are taken as parse
    errors. *)
Definition json_media (b : body_t) : option (list string * list string) :=
  match b with
  | JsonMedia videos pictures => Some (videos, pictures)
  | JsonError _ => Some ([], [])
  | Text _ | Stream _ => None
  end.

(** One run of [loadVideos] on the page [p]. *)
Definition loadVideos (reply : fetched) (p : page) : page :=
  let p1 := clearLists (setStatus "Loading…" p) in
  let failed :=
    setStatus "Could not load videos. Is the server running?" p1 in
  match reply with
  | FetchRejected => failed
  | FetchResponse res =>
      if negb (response_ok res) then failed
      else
        match json_media (body res) with
        | None => failed
        | Some (videos, pictures) =>
            let p2 :=
              {| status_text := status_text p1;
                 status_display := status_display p1;
                 videoList :=
                   renderList videos false
                     "No videos found in /videos (mp4, webm).";
                 picturesList :=
                   renderList pictures true
                     "No pictures found in /pictures (jpg/jpeg)." |} in
            match videos, pictures with
            | [], [] => setStatus "No media found." p2
            | _, _ => setStatus "" p2
            end
        end
  end.

(** The names on the buttons of a list. *)
Definition item_names (items : list list_item) : list string :=
  omap (fun it => match it with
                  | MediaItem name _ _ => Some name
                  | Placeholder _ => None
                  end) items.

(** A page before its first load: nothing listed, the status line
    hidden. *)
Definition demo_page : page :=
  {| status_text := ""; status_display := "none";
     videoList := []; picturesList := [] |}.

(** [loadVideos] against the listing of the server on [fs]. *)
Definition loaded_page `{Platform} (fs : filesystem) (p : page) : page :=
  loadVideos (match (serve (list_handler fs)).1 with
              | Some r => FetchResponse r
              | None => FetchRejected
              end) p.

(** * Properties *)

(** ** The [path] functions on examples *)

Example basename_plain : path.basename "movie.mp4" = "movie.mp4".
Proof. reflexivity. Qed.
Example basename_traversal : path.basename "../../secret" = "secret".
Proof. reflexivity. Qed.
Example basename_trailing : path.basename "clips/" = "clips".
Proof. reflexivity. Qed.
Example basename_dotdot : path.basename ".." = "..".
Proof. reflexivity. Qed.
Example extname_plain : path.extname "movie.MP4" = ".MP4".
Proof. reflexivity. Qed.
Example extname_hidden : path.extname ".mp4" = "".
Proof. reflexivity. Qed.
Example extname_dotdot : path.extname ".." = "".
Proof. reflexivity. Qed.
Example extname_two : path.extname "a.tar.webm" = ".webm".
Proof. reflexivity. Qed.
Example extname_trailing_dot : path.extname "a." = ".".
Proof. reflexivity. Qed.
Example extname_dots_prefix : path.extname "..mp4" = ".mp4".
Proof. reflexivity. Qed.

(** ** The range pattern and the numbers on examples *)

Example range_match_open : range_match "bytes=0-" = Some ("0", "").
Proof. reflexivity. Qed.
Example range_match_closed : range_match "bytes=10-20" = Some ("10", "20").
Proof. reflexivity. Qed.
Example range_match_suffix : range_match "bytes=-5" = None.
Proof. reflexivity. Qed.
Example range_match_multi : range_match "bytes=0-1,3-4" = Some ("0", "1").
Proof. reflexivity. Qed.
Example range_match_inside : range_match "xbytes=7-z" = Some ("7", "").
Proof. reflexivity. Qed.
Example range_match_unit : range_match "items=0-5" = None.
Proof. reflexivity. Qed.
Example parseInt_leading_zeros : parseInt "007" = 7.
Proof. reflexivity. Qed.
Example number_to_string_1234 : number_to_string 1234 = "1234".
Proof. reflexivity. Qed.
Example number_to_string_zero : number_to_string 0 = "0".
Proof. reflexivity. Qed.
Example percent_decode_space :
  percent_decode "My%20Video.mp4" = Some "My Video.mp4".
Proof. reflexivity. Qed.
Example percent_decode_bad : percent_decode "100%.mp4" = None.
Proof. reflexivity. Qed.

(** ** Strings *)

Lemma app_cons c (s t : string) : String c s +:+ t = String c (s +:+ t).
Proof. reflexivity. Qed.

Lemma app_empty_l (t : string) : "" +:+ t = t.
Proof. reflexivity. Qed.

Lemma app_empty_r (s : string) : s +:+ "" = s.
Proof. induction s as [|c s IH]; [done|]. by rewrite app_cons, IH. Qed.

Lemma app_assoc_s (s t u : string) : (s +:+ t) +:+ u = s +:+ (t +:+ u).
Proof. induction s as [|c s IH]; [done|]. by rewrite !app_cons, IH. Qed.

(** ** Digits *)

Lemma all_digits_cons c s :
  all_digits (String c s) = Chars.is_digit c && all_digits s.
Proof. reflexivity. Qed.

Lemma all_digits_app s t :
  all_digits (s +:+ t) = all_digits s && all_digits t.
Proof.
  induction s as [|c s IH]; [done|].
  rewrite app_cons, !all_digits_cons, IH. by rewrite andb_assoc.
Qed.

Lemma span_digits_all d rest :
  all_digits d = true ->
  match rest with
  | String c _ => Chars.is_digit c = false
  | EmptyString => True
  end ->
  span_digits (d +:+ rest) = (d, rest).
Proof.
  intros Hd Hrest. induction d as [|c d IH].
  - rewrite app_empty_l. destruct rest as [|c r]; [done|].
    simpl. by rewrite Hrest.
  - rewrite all_digits_cons in Hd. apply andb_true_iff in Hd as [Hc Hd].
    rewrite app_cons. simpl. rewrite Hc, (IH Hd). done.
Qed.

Lemma span_digits_spec s d r :
  span_digits s = (d, r) ->
  s = d +:+ r /\ all_digits d = true /\
  match r with
  | String c _ => Chars.is_digit c = false
  | EmptyString => True
  end.
Proof.
  revert d r. induction s as [|c s IH]; intros d r Hs; simpl in Hs.
  - by simplify_eq.
  - destruct (Chars.is_digit c) eqn:Hc.
    + destruct (span_digits s) as [d' r'] eqn:Hs'. simplify_eq.
      destruct (IH _ _ eq_refl) as (-> & Hd & Hr).
      rewrite app_cons, all_digits_cons, Hc, Hd. done.
    + simplify_eq. by rewrite app_empty_l.
Qed.

Lemma parseInt_loop_nonneg s acc : 0 <= acc -> 0 <= parseInt_loop s acc.
Proof.
  revert acc. induction s as [|c s IH]; intros acc Hacc; simpl; [done|].
  destruct (Chars.is_digit c) eqn:Hc; [|done].
  apply IH. unfold Chars.is_digit, Chars.digit_value in *. lia.
Qed.

Lemma parseInt_nonneg s : 0 <= parseInt s.
Proof. by apply parseInt_loop_nonneg. Qed.

(** ** Decimal numerals *)

Lemma uint_string_digits d : all_digits (NilEmpty.string_of_uint d) = true.
Proof. induction d; simpl; try done; by rewrite all_digits_cons, IHd. Qed.

Ltac eval_digit :=
  repeat match goal with
  | |- context [Chars.digit_value ?c] =>
      let v := eval vm_compute in (Chars.digit_value c) in
      change (Chars.digit_value c) with v
  end.

Lemma parseInt_loop_uint_acc d acc :
  parseInt_loop (NilEmpty.string_of_uint d) (Z.pos acc)
  = Z.pos (Pos.of_uint_acc d acc).
Proof.
  revert acc. induction d; intros acc; simpl; try done;
    rewrite <- IHd; f_equal; eval_digit; lia.
Qed.

Lemma parseInt_loop_uint d :
  parseInt_loop (NilEmpty.string_of_uint d) 0 = Z.of_N (Pos.of_uint d).
Proof.
  induction d; simpl; try done; eval_digit;
    first [exact IHd | rewrite <- parseInt_loop_uint_acc; done].
Qed.

Lemma number_to_string_pos p :
  number_to_string (Z.pos p) = NilEmpty.string_of_uint (Pos.to_uint p).
Proof.
  unfold number_to_string. simpl.
  pose proof (Unsigned.to_uint_nonnil p) as Hnil.
  by destruct (Pos.to_uint p).
Qed.

Lemma number_to_string_digits n :
  0 <= n ->
  all_digits (number_to_string n) = true
  /\ number_to_string n <> ""
  /\ parseInt (number_to_string n) = n.
Proof.
  intros Hn. destruct n as [|p|p]; [done| |lia].
  rewrite number_to_string_pos. split; [apply uint_string_digits|]. split.
  - pose proof (Unsigned.to_uint_nonnil p). by destruct (Pos.to_uint p).
  - unfold parseInt. rewrite parseInt_loop_uint, Unsigned.of_to. done.
Qed.

(** ** The range pattern *)

Lemma strip_prefix_app p s : strip_prefix p (p +:+ s) = Some s.
Proof.
  induction p as [|c p IH]; [by destruct s|].
  rewrite app_cons. simpl. by rewrite Ascii.eqb_refl.
Qed.

Lemma strip_prefix_spec p s r : strip_prefix p s = Some r -> s = p +:+ r.
Proof.
  revert s. induction p as [|c p IH]; intros s Hs.
  - destruct s; simpl in Hs; by simplify_eq.
  - destruct s as [|c' s]; simpl in Hs; [done|].
    destruct (Ascii.eqb c c') eqn:Hc; [|done].
    apply Ascii.eqb_eq in Hc as ->. rewrite app_cons. f_equal. by apply IH.
Qed.

Lemma hyphen_not_digit : Chars.is_digit "-" = false.
Proof. reflexivity. Qed.

(** At the index where the pattern occurs the attempt succeeds. *)
Lemma range_match_here_occurs d1 rest :
  d1 <> "" -> all_digits d1 = true ->
  range_match_here ("bytes=" +:+ d1 +:+ "-" +:+ rest)
  = Some (d1, fst (span_digits rest)).
Proof.
  intros Hne Hd. unfold range_match_here.
  rewrite strip_prefix_app.
  rewrite (span_digits_all d1 ("-" +:+ rest) Hd hyphen_not_digit).
  destruct d1 as [|c d1]; [done|]. reflexivity.
Qed.

Lemma range_match_here_spec s m1 m2 :
  range_match_here s = Some (m1, m2) ->
  exists rest, s = "bytes=" +:+ m1 +:+ "-" +:+ rest
               /\ m1 <> "" /\ all_digits m1 = true
               /\ m2 = fst (span_digits rest).
Proof.
  unfold range_match_here. intros Hs.
  destruct (strip_prefix "bytes=" s) as [r|] eqn:Hp; [|done].
  apply strip_prefix_spec in Hp as ->.
  destruct (span_digits r) as [d r1] eqn:Hspan.
  apply span_digits_spec in Hspan as (-> & Hd & _).
  destruct d as [|c d]; [done|]. destruct r1 as [|c1 r2]; [done|].
  destruct (Ascii.eqb c1 "-") eqn:Hc1; [|done].
  apply Ascii.eqb_eq in Hc1 as ->. simplify_eq. by exists r2.
Qed.

Lemma range_match_unfold s :
  range_match s =
  match range_match_here s with
  | Some g => Some g
  | None => match s with
            | EmptyString => None
            | String _ s' => range_match s'
            end
  end.
Proof. by destruct s. Qed.

Lemma range_match_head s g :
  range_match_here s = Some g -> range_match s = Some g.
Proof. intros Hs. by rewrite range_match_unfold, Hs. Qed.

Lemma range_match_tail c s :
  range_match_here (String c s) = None ->
  range_match (String c s) = range_match s.
Proof. intros Hs. by rewrite range_match_unfold, Hs. Qed.

(** The simple forms ["bytes=<start>-<end>"] and ["bytes=<start>-"]. *)
Lemma range_match_simple d1 d2 :
  d1 <> "" -> all_digits d1 = true -> all_digits d2 = true ->
  range_match ("bytes=" +:+ d1 +:+ "-" +:+ d2) = Some (d1, d2).
Proof.
  intros Hne Hd1 Hd2. apply range_match_head.
  rewrite (range_match_here_occurs d1 d2 Hne Hd1).
  pose proof (span_digits_all d2 "" Hd2 I) as Hspan.
  rewrite app_empty_r in Hspan. by rewrite Hspan.
Qed.

Lemma range_match_is_Some s :
  is_Some (range_match s) <-> range_pattern_occurs s.
Proof.
  split.
  - intros [[m1 m2] Hs]. induction s as [|c s IH].
    + simpl in Hs. done.
    + destruct (range_match_here (String c s)) as [g|] eqn:Hhere.
      * rewrite (range_match_head _ _ Hhere) in Hs. simplify_eq.
        apply range_match_here_spec in Hhere as (rest & -> & Hne & Hd & _).
        by exists "", m1, rest.
      * rewrite (range_match_tail _ _ Hhere) in Hs.
        destruct (IH Hs) as (pre & d1 & rest & -> & Hne & Hd).
        by exists (String c pre), d1, rest.
  - intros (pre & d1 & rest & -> & Hne & Hd).
    induction pre as [|c pre IH].
    + rewrite app_empty_l.
      rewrite (range_match_head _ _ (range_match_here_occurs d1 rest Hne Hd)).
      by eexists.
    + rewrite app_cons.
      destruct (range_match_here
                  (String c (pre +:+ "bytes=" +:+ d1 +:+ "-" +:+ rest)))
        as [g|] eqn:Hhere.
      * rewrite (range_match_head _ _ Hhere). by eexists.
      * by rewrite (range_match_tail _ _ Hhere).
Qed.

Lemma range_match_None s :
  range_match s = None <-> ~ range_pattern_occurs s.
Proof.
  rewrite <- range_match_is_Some, <- eq_None_not_Some. done.
Qed.

Lemma range_match_nonempty s g : range_match s = Some g -> s <> "".
Proof. by intros Hs ->. Qed.

Lemma range_match_no_b s : no_b s = true -> range_match s = None.
Proof.
  induction s as [|c s IH]; intros Hs; [done|].
  unfold no_b in Hs. simpl in Hs. apply andb_true_iff in Hs as [Hc Hs].
  rewrite range_match_tail; [by apply IH|].
  unfold range_match_here.
  change (strip_prefix "bytes=" (String c s))
    with (if Ascii.eqb "b" c then strip_prefix "ytes=" s else None).
  rewrite Ascii.eqb_sym. by destruct (Ascii.eqb c "b").
Qed.

Lemma digits_no_b d : all_digits d = true -> no_b d = true.
Proof.
  induction d as [|c d IH]; [done|].
  rewrite all_digits_cons. intros [Hc Hd]%andb_true_iff.
  unfold no_b. simpl. apply andb_true_iff. split; [|by apply IH].
  destruct (Ascii.eqb c "b") eqn:Hb; [|done].
  apply Ascii.eqb_eq in Hb as ->. done.
Qed.

(** The suffix form ["bytes=-<length>"] holds no occurrence. *)
Lemma range_match_suffix_form d :
  all_digits d = true -> range_match ("bytes=-" +:+ d) = None.
Proof.
  intros Hd.
  change ("bytes=-" +:+ d) with (String "b" ("ytes=-" +:+ d)).
  rewrite range_match_tail.
  - apply range_match_no_b.
    change ("ytes=-" +:+ d) with
      (String "y" (String "t" (String "e" (String "s" (String "=" (String "-" d)))))).
    unfold no_b. simpl. by apply digits_no_b.
  - reflexivity.
Qed.

(** ** [path.basename] and directory components *)

Lemma substring_all s : String.substring 0 (String.length s) s = s.
Proof. induction s as [|c s IH]; [done|]. simpl. by rewrite IH. Qed.

Lemma substring_length_le n m s :
  (String.length (String.substring n m s) <= m)%nat.
Proof.
  revert n m. induction s as [|c s IH]; intros n m.
  - destruct n, m; simpl; lia.
  - destruct n as [|n]; simpl.
    + destruct m as [|m]; simpl; [lia|]. specialize (IH 0%nat m). lia.
    + apply IH.
Qed.

Lemma length_list_ascii s :
  length (list_ascii_of_string s) = String.length s.
Proof. induction s as [|c s IH]; [done|]. simpl. by rewrite IH. Qed.

(** Once the end of the component is known, the loop only looks for the
    slash before it. *)
Lemma basename_loop_component chars i st :
  i = Z.of_nat (length chars) - 1 ->
  path.bn_end st <> -1 -> path.bn_matchedSlash st = false ->
  path.bn_start st = 0 ->
  let r := path.basename_loop chars i st in
  path.bn_end r = path.bn_end st
  /\ 0 <= path.bn_start r <= i + 1
  /\ (no_slash chars = true -> path.bn_start r = 0)
  /\ (no_slash chars = false -> 1 <= path.bn_start r).
Proof.
  revert i st. induction chars as [|c chars IH]; intros i st Hi He Hm Hs; simpl.
  - rewrite Hs. simpl in Hi. repeat split; try done; lia.
  - simpl in Hi. destruct (Chars.is_slash c) eqn:Hc; simpl.
    + rewrite Hm. simpl. repeat split; try done; lia.
    + apply Z.eqb_neq in He as He'. rewrite He'.
      destruct (IH (i - 1) st) as (H1 & H2 & H3 & H4); [lia|done..|].
      repeat split; try done; lia.
Qed.

(** From the end of the path: trailing slashes are skipped, then the
    component is delimited. *)
Lemma basename_loop_spec chars i :
  i = Z.of_nat (length chars) - 1 ->
  let r := path.basename_loop chars i
             {| path.bn_start := 0; path.bn_end := -1;
                path.bn_matchedSlash := true |} in
  (chars = [] /\ path.bn_end r = -1)
  \/ (chars <> [] /\ no_slash chars = true
      /\ path.bn_start r = 0 /\ path.bn_end r = i + 1)
  \/ (no_slash chars = false
      /\ (path.bn_end r = -1
          \/ (0 <= path.bn_start r /\ path.bn_start r <= path.bn_end r
              /\ path.bn_end r - path.bn_start r < i + 1))).
Proof.
  revert i. induction chars as [|c chars IH]; intros i Hi; simpl.
  - by left.
  - right. simpl in Hi. destruct (Chars.is_slash c) eqn:Hc; simpl.
    + right. split; [done|].
      destruct (IH (i - 1)) as [[-> He] | [(Hne & Hns & Hs & He) | (Hns & Hr)]];
        [lia| | |].
      * by left.
      * right. lia.
      * destruct Hr as [He | Hr]; [by left | right; lia].
    + pose proof (basename_loop_component chars (i - 1)
                    {| path.bn_start := 0; path.bn_end := i + 1;
                       path.bn_matchedSlash := false |}) as Hcomp.
      cbn [path.bn_end path.bn_start path.bn_matchedSlash] in Hcomp.
      destruct Hcomp as (He & Hs & Hs0 & Hs1); [lia|lia|done|done|].
      destruct (no_slash chars) eqn:Hns.
      * left. repeat split; try done. by apply Hs0.
      * right. split; [done|]. right. specialize (Hs1 eq_refl). lia.
Qed.

Lemma no_slash_rev chars : no_slash (rev chars) = no_slash chars.
Proof.
  unfold no_slash. induction chars as [|c chars IH]; [done|].
  simpl. rewrite forallb_app, IH. simpl. rewrite andb_true_r. apply andb_comm.
Qed.

(** A name is its own basename exactly when it holds no slash. *)
Theorem basename_fixed_iff name :
  path.basename name = name
  <-> no_slash (list_ascii_of_string name) = true.
Proof.
  unfold path.basename, str_length.
  pose proof (basename_loop_spec (rev (list_ascii_of_string name))
                (Z.of_nat (String.length name) - 1)) as Hspec.
  rewrite length_rev, length_list_ascii in Hspec. specialize (Hspec eq_refl).
  cbv zeta in Hspec. rewrite no_slash_rev in Hspec.
  set (r := path.basename_loop _ _ _) in *.
  destruct Hspec as [[Hnil He] | [(Hne & Hns & Hs & He) | (Hns & Hr)]].
  - rewrite He. simpl.
    assert (list_ascii_of_string name = []) as Hname.
    { by rewrite <- (rev_involutive (list_ascii_of_string name)), Hnil. }
    destruct name; [done | discriminate Hname].
  - rewrite He, Hs, Hns.
    replace (Z.of_nat (String.length name) - 1 + 1 =? -1) with false by lia.
    unfold slice.
    replace (Z.to_nat (Z.of_nat (String.length name) - 1 + 1 - 0))
      with (String.length name) by lia.
    change (Z.to_nat 0) with 0%nat. by rewrite substring_all.
  - rewrite Hns. split; [|done]. intros Heq. exfalso.
    assert (name <> "") as Hname by (by intros ->).
    destruct Hr as [He | (H0 & Hse & Hlt)].
    + rewrite He in Heq. simpl in Heq. done.
    + destruct (path.bn_end r =? -1); [done|].
      apply (f_equal String.length) in Heq. unfold slice in Heq.
      pose proof (substring_length_le (Z.to_nat (path.bn_start r))
                    (Z.to_nat (path.bn_end r - path.bn_start r)) name).
      lia.
Qed.

(** ** The stream handler, branch by branch *)

Section StreamBranches.

Context `{Platform}.
Implicit Types (fs : filesystem) (req : request) (t : list fs_op).

Lemma allowed_iff ext :
  ext ∈ ALLOWED_EXTENSIONS <-> In ext [".mp4"; ".webm"; ".jpg"; ".jpeg"].
Proof.
  unfold ALLOWED_EXTENSIONS, VIDEO_EXTENSIONS, IMAGE_EXTENSIONS.
  rewrite !elem_of_union, !elem_of_singleton. simpl. intuition.
Qed.

Lemma stream_full_run fs name size t :
  stream_full fs name size t
  = (inr {| status := 200; headers := full_head name size;
            body := Stream (piped_bytes fs (videoPath name) None) |},
     t ++ [OpCreateReadStream (videoPath name) None]).
Proof. reflexivity. Qed.

Lemma stream_range_malformed fs name size h t :
  range_match h = None ->
  stream_range fs name size h t
  = (inr (send 416 "Malformed Range header."), t).
Proof. intros Hm. unfold stream_range. by rewrite Hm. Qed.

Lemma stream_range_matched fs name size h m1 m2 t :
  range_match h = Some (m1, m2) ->
  stream_range fs name size h t
  = let start := parseInt m1 in
    let end_ := range_end m2 size in
    if unsatisfiable start end_ size
    then (inr (send 416 "Requested range not satisfiable."), t)
    else (inr {| status := 206;
                 headers := partial_head name start end_ size;
                 body := Stream (piped_bytes fs (videoPath name)
                                   (Some (start, end_))) |},
          t ++ [OpCreateReadStream (videoPath name) (Some (start, end_))]).
Proof.
  intros Hm. unfold stream_range. rewrite Hm. cbv zeta.
  by destruct (unsatisfiable _ _ _).
Qed.

Lemma serve_undecodable fs req :
  decodeURIComponent (params_name req) = None ->
  serve (stream_handler fs req) = (Some (send 500 "Server error."), []).
Proof.
  intros Hdec. unfold serve, run, stream_handler, try_catch, stream_try.
  unfold mbind, IO_bind. by rewrite Hdec.
Qed.

Lemma serve_invalid_name fs req name :
  decodeURIComponent (params_name req) = Some name ->
  path.basename name <> name ->
  serve (stream_handler fs req) = (Some (send 400 "Invalid file name."), []).
Proof.
  intros Hdec Hbase. unfold serve, run, stream_handler, try_catch, stream_try.
  unfold mbind, IO_bind. rewrite Hdec. cbn [mret IO_ret].
  apply String.eqb_neq in Hbase. by rewrite Hbase.
Qed.

Lemma serve_unsupported fs req name :
  decodeURIComponent (params_name req) = Some name ->
  path.basename name = name ->
  toLowerCase (path.extname name) ∉ ALLOWED_EXTENSIONS ->
  serve (stream_handler fs req)
  = (Some (send 415 "Unsupported media type."), []).
Proof.
  intros Hdec Hbase Hext. unfold serve, run, stream_handler, try_catch, stream_try.
  unfold mbind, IO_bind. rewrite Hdec. cbn [mret IO_ret].
  rewrite Hbase, String.eqb_refl. cbn [negb].
  unfold has. by rewrite bool_decide_eq_false_2.
Qed.

(** An accepted name takes the handler to [fsp.stat]. *)
Lemma stream_try_accepted fs req name :
  accepted_name (params_name req) name ->
  stream_try fs req []
  = match stat fs (videoPath name) with
    | inl e => (inl (SystemError e), [OpStat (videoPath name)])
    | inr size =>
        match headers_range req with
        | Some (String c r) =>
            stream_range fs name size (String c r) [OpStat (videoPath name)]
        | Some EmptyString | None =>
            stream_full fs name size [OpStat (videoPath name)]
        end
    end.
Proof.
  intros (Hdec & Hbase & Hext). unfold stream_try.
  unfold mbind, IO_bind. rewrite Hdec. cbn [mret IO_ret].
  rewrite Hbase, String.eqb_refl. cbn [negb].
  unfold has. rewrite bool_decide_eq_true_2 by done. cbn [negb].
  unfold fsp_stat. cbn [app].
  destruct (stat fs (videoPath name)) as [e|size]; cbn [lift_errno]; [done|].
  by destruct (headers_range req) as [[|c r]|].
Qed.

Lemma serve_stat_error fs req name e :
  accepted_name (params_name req) name ->
  stat fs (videoPath name) = inl e ->
  serve (stream_handler fs req)
  = (Some (match e with
           | ENOENT => send 404 "Not found."
           | _ => send 500 "Server error."
           end),
     [OpStat (videoPath name)]).
Proof.
  intros Hacc Hstat. unfold serve, run, stream_handler, try_catch.
  rewrite (stream_try_accepted _ _ _ Hacc), Hstat. by destruct e.
Qed.

Lemma serve_no_range fs req name size :
  accepted_name (params_name req) name ->
  stat fs (videoPath name) = inr size ->
  headers_range req = None \/ headers_range req = Some "" ->
  serve (stream_handler fs req)
  = (Some {| status := 200; headers := full_head name size;
             body := Stream (piped_bytes fs (videoPath name) None) |},
     [OpStat (videoPath name); OpCreateReadStream (videoPath name) None]).
Proof.
  intros Hacc Hstat Hrange. unfold serve, run, stream_handler, try_catch.
  rewrite (stream_try_accepted _ _ _ Hacc), Hstat.
  by destruct Hrange as [-> | ->]; rewrite stream_full_run.
Qed.

Lemma serve_malformed fs req name size h :
  accepted_name (params_name req) name ->
  stat fs (videoPath name) = inr size ->
  headers_range req = Some h -> h <> "" ->
  range_match h = None ->
  serve (stream_handler fs req)
  = (Some (send 416 "Malformed Range header."), [OpStat (videoPath name)]).
Proof.
  intros Hacc Hstat Hrange Hne Hm. unfold serve, run, stream_handler, try_catch.
  rewrite (stream_try_accepted _ _ _ Hacc), Hstat, Hrange.
  destruct h as [|c h]; [done|].
  by rewrite (stream_range_malformed _ _ _ _ _ Hm).
Qed.

Lemma serve_matched fs req name size h m1 m2 :
  accepted_name (params_name req) name ->
  stat fs (videoPath name) = inr size ->
  headers_range req = Some h ->
  range_match h = Some (m1, m2) ->
  serve (stream_handler fs req)
  = let start := parseInt m1 in
    let end_ := range_end m2 size in
    if unsatisfiable start end_ size
    then (Some (send 416 "Requested range not satisfiable."),
          [OpStat (videoPath name)])
    else (Some {| status := 206;
                  headers := partial_head name start end_ size;
                  body := Stream (piped_bytes fs (videoPath name)
                                    (Some (start, end_))) |},
          [OpStat (videoPath name);
           OpCreateReadStream (videoPath name) (Some (start, end_))]).
Proof.
  intros Hacc Hstat Hrange Hm. unfold serve, run, stream_handler, try_catch.
  rewrite (stream_try_accepted _ _ _ Hacc), Hstat, Hrange.
  destruct h as [|c h]; [done|].
  rewrite (stream_range_matched _ _ _ _ _ _ _ Hm). cbv zeta.
  by destruct (unsatisfiable _ _ _).
Qed.

Lemma unsatisfiable_spec start end_ size :
  unsatisfiable start end_ size = true
  <-> start >= size \/ end_ >= size \/ start > end_.
Proof. unfold unsatisfiable. rewrite !orb_true_iff. lia. Qed.

Lemma unsatisfiable_false start end_ size :
  unsatisfiable start end_ size = false
  <-> start < size /\ end_ < size /\ start <= end_.
Proof. unfold unsatisfiable. rewrite !orb_false_iff. lia. Qed.

Lemma stat_file fs p data readable :
  fs !! p = Some (File data readable) -> stat fs p = inr (file_size data).
Proof. intros Hp. unfold stat. by rewrite Hp. Qed.

Lemma piped_file fs p data opts :
  fs !! p = Some (File data true) ->
  piped_bytes fs p opts = stream_bytes data opts.
Proof. intros Hp. unfold piped_bytes, open_read. by rewrite Hp. Qed.

End StreamBranches.

(** ** The bytes of an interval *)

Lemma stream_bytes_length (data : list Byte.byte) a b :
  0 <= a -> a <= b -> b < file_size data ->
  Z.of_nat (length (stream_bytes data (Some (a, b)))) = b - a + 1.
Proof.
  unfold file_size, stream_bytes. intros Ha Hab Hb.
  rewrite length_take, length_drop. lia.
Qed.

Lemma stream_bytes_lookup (data : list Byte.byte) a b i :
  0 <= a -> 0 <= i <= b - a ->
  stream_bytes data (Some (a, b)) !! Z.to_nat i = data !! Z.to_nat (a + i).
Proof.
  unfold stream_bytes. intros Ha Hi.
  rewrite lookup_take_lt by lia. rewrite lookup_drop. f_equal. lia.
Qed.

(** ** Range requests, whole files and name checks *)

Section RangeClaims.

Context `{Platform}.
Implicit Types (fs : filesystem).

Lemma range_header_match a e :
  0 <= a -> match e with Some b => 0 <= b | None => True end ->
  range_match (range_header a e)
  = Some (number_to_string a,
          match e with Some b => number_to_string b | None => "" end).
Proof.
  intros Ha He. destruct (number_to_string_digits a Ha) as (Hda & Hna & _).
  apply range_match_simple; [done..|].
  destruct e as [b|]; [|done]. by destruct (number_to_string_digits b He).
Qed.

Lemma range_end_number b size :
  0 <= b -> range_end (number_to_string b) size = b.
Proof.
  intros Hb. destruct (number_to_string_digits b Hb) as (_ & Hnb & Hpb).
  unfold range_end. by destruct (number_to_string b).
Qed.

(** C1.  For an accepted name whose file has [N] bytes and is readable,
    and offsets [0 <= a <= b < N], the header ["bytes=a-b"] (and
    ["bytes=a-"] when [b = N - 1]) is answered with status 206, the
    headers [Content-Range: bytes a-b/N], [Accept-Ranges: bytes],
    [Content-Length: b - a + 1] and the content type, and a body of
    exactly [b - a + 1] bytes, the [i]-th of which is byte [a + i] of the
    file.  One [stat] and one read stream over [[a, b]] are performed. *)
Theorem range_request_served fs raw name data a b e :
  accepted_name raw name ->
  fs !! videoPath name = Some (File data true) ->
  0 <= a -> a <= b -> b < file_size data ->
  e = Some b \/ (e = None /\ b = file_size data - 1) ->
  exists bytes,
    serve (stream_handler fs (mk_request raw (Some (range_header a e))))
    = (Some {| status := 206;
               headers :=
                 [ ("Content-Range",
                    HStr ("bytes " +:+ number_to_string a +:+ "-"
                          +:+ number_to_string b +:+ "/"
                          +:+ number_to_string (file_size data)));
                   ("Accept-Ranges", HStr "bytes");
                   ("Content-Length", HNum (b - a + 1));
                   ("Content-Type", HStr (getContentType name)) ];
               body := Stream bytes |},
       [ OpStat (videoPath name);
         OpCreateReadStream (videoPath name) (Some (a, b)) ])
    /\ Z.of_nat (length bytes) = b - a + 1
    /\ forall i, 0 <= i <= b - a ->
         bytes !! Z.to_nat i = data !! Z.to_nat (a + i).
Proof.
  intros Hacc Hfile Ha Hab Hb He.
  exists (stream_bytes data (Some (a, b))).
  split; [|split; [by apply stream_bytes_length
                  |intros i Hi; by apply stream_bytes_lookup]].
  assert (range_end (match e with
                     | Some b' => number_to_string b'
                     | None => ""
                     end) (file_size data) = b) as Hend.
  { destruct He as [-> | [-> ->]]; [apply range_end_number; lia | done]. }
  assert (match e with Some b' => 0 <= b' | None => True end) as He'.
  { destruct He as [-> | [-> _]]; [lia | done]. }
  rewrite (serve_matched fs (mk_request raw _) name (file_size data) _ _ _ Hacc
             (stat_file _ _ _ _ Hfile) eq_refl (range_header_match a e Ha He')).
  cbv zeta. rewrite Hend.
  destruct (number_to_string_digits a Ha) as (_ & _ & ->).
  rewrite (proj2 (unsatisfiable_false a b (file_size data))) by lia.
  by rewrite (piped_file _ _ _ _ Hfile).
Qed.

(** C3.  For an accepted name whose [stat] gives [size], and a header in
    which the range pattern matches with captures [m1], [m2]: the request
    is answered 416 "Requested range not satisfiable." exactly when
    [start >= size], [end >= size] or [start > end]; otherwise it is
    answered 206 and streams [[start, end]].  Whatever the header, an
    interval handed to the read stream satisfies
    [0 <= start <= end < size]. *)
Theorem range_validation fs raw name size h m1 m2 :
  accepted_name raw name ->
  stat fs (videoPath name) = inr size ->
  range_match h = Some (m1, m2) ->
  let start := parseInt m1 in
  let end_ := range_end m2 size in
  let out := serve (stream_handler fs (mk_request raw (Some h))) in
  (out.1 = Some (send 416 "Requested range not satisfiable.")
   <-> start >= size \/ end_ >= size \/ start > end_)
  /\ (~ (start >= size \/ end_ >= size \/ start > end_) ->
      exists bytes,
        out = (Some {| status := 206;
                       headers := partial_head name start end_ size;
                       body := Stream bytes |},
               [ OpStat (videoPath name);
                 OpCreateReadStream (videoPath name) (Some (start, end_)) ]))
  /\ (forall range p s e,
        In (OpCreateReadStream p (Some (s, e)))
           (serve (stream_handler fs (mk_request raw range))).2 ->
        0 <= s /\ s <= e /\ e < size).
Proof.
  intros Hacc Hstat Hm start end_ out.
  assert (out = if unsatisfiable start end_ size
                then (Some (send 416 "Requested range not satisfiable."),
                      [OpStat (videoPath name)])
                else (Some {| status := 206;
                              headers := partial_head name start end_ size;
                              body := Stream (piped_bytes fs (videoPath name)
                                                (Some (start, end_))) |},
                      [ OpStat (videoPath name);
                        OpCreateReadStream (videoPath name)
                          (Some (start, end_)) ])) as Hout.
  { subst out.
    by rewrite (serve_matched fs (mk_request raw _) name size h m1 m2
                  Hacc Hstat eq_refl Hm). }
  split; [|split].
  - rewrite <- unsatisfiable_spec, Hout.
    destruct (unsatisfiable start end_ size); simpl; [done|].
    split; [intros [=] | done].
  - intros Hok. rewrite Hout.
    destruct (unsatisfiable start end_ size) eqn:Hu; [|eauto].
    apply unsatisfiable_spec in Hu. done.
  - intros range p s e Hin.
    destruct range as [[|c r]|].
    + rewrite (serve_no_range fs (mk_request raw _) name size Hacc Hstat) in Hin by (by right).
      simpl in Hin. destruct Hin as [|[|[]]]; done.
    + destruct (range_match (String c r)) as [[n1 n2]|] eqn:Hr.
      * rewrite (serve_matched fs (mk_request raw _) name size _ n1 n2 Hacc Hstat eq_refl Hr) in Hin.
        cbv zeta in Hin.
        destruct (unsatisfiable (parseInt n1) (range_end n2 size) size) eqn:Hu;
          simpl in Hin.
        { destruct Hin as [|[]]; done. }
        destruct Hin as [|[Hop|[]]]; [done|]. simplify_eq.
        apply unsatisfiable_false in Hu. pose proof (parseInt_nonneg n1). lia.
      * rewrite (serve_malformed fs (mk_request raw _) name size _ Hacc Hstat eq_refl) in Hin by done.
        simpl in Hin. destruct Hin as [|[]]; done.
    + rewrite (serve_no_range fs (mk_request raw _) name size Hacc Hstat) in Hin by (by left).
      simpl in Hin. destruct Hin as [|[|[]]]; done.
Qed.

(** C4.  For an accepted name whose file exists and is readable, a
    request without [Range] header is answered with status 200, with
    [Content-Length] the size of the file (and the content type), and
    with the whole content of the file as body. *)
Theorem full_request_served fs raw name data :
  accepted_name raw name ->
  fs !! videoPath name = Some (File data true) ->
  serve (stream_handler fs (mk_request raw None))
  = (Some {| status := 200;
             headers := [ ("Content-Length", HNum (file_size data));
                          ("Content-Type", HStr (getContentType name)) ];
             body := Stream data |},
     [ OpStat (videoPath name);
       OpCreateReadStream (videoPath name) None ]).
Proof.
  intros Hacc Hfile.
  rewrite (serve_no_range fs (mk_request raw _) name (file_size data) Hacc
             (stat_file _ _ _ _ Hfile)) by (by left).
  by rewrite (piped_file _ _ _ _ Hfile).
Qed.

(** C5.  For a name that decodes to [name]: when [name] differs from its
    basename the answer is 400, and otherwise, when its lower-cased
    extension is none of [.mp4], [.webm], [.jpg], [.jpeg], the answer is
    415; in both cases no file-system operation is performed.  Hence any
    file-system operation of a request comes after both checks have
    passed. *)
Theorem name_checks_first fs raw name range :
  decodeURIComponent raw = Some name ->
  let out := serve (stream_handler fs (mk_request raw range)) in
  let ext := toLowerCase (path.extname name) in
  (path.basename name <> name ->
   out = (Some (send 400 "Invalid file name."), []))
  /\ (path.basename name = name ->
      ~ In ext [".mp4"; ".webm"; ".jpg"; ".jpeg"] ->
      out = (Some (send 415 "Unsupported media type."), []))
  /\ (out.2 <> [] ->
      path.basename name = name
      /\ In ext [".mp4"; ".webm"; ".jpg"; ".jpeg"]).
Proof.
  intros Hdec out ext.
  assert (path.basename name <> name ->
          out = (Some (send 400 "Invalid file name."), [])) as H400.
  { intros Hb. by apply (serve_invalid_name fs (mk_request raw range) name). }
  assert (path.basename name = name ->
          ~ In ext [".mp4"; ".webm"; ".jpg"; ".jpeg"] ->
          out = (Some (send 415 "Unsupported media type."), [])) as H415.
  { intros Hb He. apply (serve_unsupported fs (mk_request raw range) name); [done..|].
    by rewrite allowed_iff. }
  split; [done|]. split; [done|].
  intros Hops.
  destruct (decide (path.basename name = name)) as [Hb|Hb].
  - split; [done|].
    destruct (decide (ext ∈ ALLOWED_EXTENSIONS)) as [He|He].
    + by apply allowed_iff.
    + rewrite allowed_iff in He. by rewrite (H415 Hb He) in Hops.
  - by rewrite (H400 Hb) in Hops.
Qed.

End RangeClaims.

(** ** The paths through the stream handler *)

Section Outcomes.

Context `{Platform}.
Implicit Types (fs : filesystem).

(** Every request takes one of these paths. *)
Lemma serve_stream_outcome fs raw range :
  stream_outcome fs raw range
    (serve (stream_handler fs (mk_request raw range))).
Proof.
  destruct (decodeURIComponent raw) as [name|] eqn:Hdec.
  2: { rewrite (serve_undecodable fs (mk_request raw range) Hdec).
       by constructor. }
  destruct (decide (path.basename name = name)) as [Hbase|Hbase].
  2: { rewrite (serve_invalid_name fs (mk_request raw range) name Hdec Hbase).
       by econstructor. }
  destruct (decide (toLowerCase (path.extname name) ∈ ALLOWED_EXTENSIONS))
    as [Hext|Hext].
  2: { rewrite (serve_unsupported fs (mk_request raw range) name Hdec Hbase Hext).
       by econstructor. }
  assert (accepted_name raw name) as Hacc by done.
  destruct (stat fs (videoPath name)) as [e|size] eqn:Hstat.
  { rewrite (serve_stat_error fs (mk_request raw range) name e Hacc Hstat).
    by constructor. }
  destruct range as [h|].
  2: { rewrite (serve_no_range fs (mk_request raw None) name size Hacc Hstat)
         by (by left).
       econstructor; eauto. }
  destruct (decide (h = "")) as [->|Hne].
  { rewrite (serve_no_range fs (mk_request raw (Some "")) name size Hacc Hstat)
      by (by right).
    econstructor; eauto. }
  destruct (range_match h) as [[m1 m2]|] eqn:Hm.
  2: { rewrite (serve_malformed fs (mk_request raw (Some h)) name size h
                  Hacc Hstat eq_refl Hne Hm).
       by econstructor. }
  rewrite (serve_matched fs (mk_request raw (Some h)) name size h m1 m2
             Hacc Hstat eq_refl Hm). cbv zeta.
  destruct (unsatisfiable (parseInt m1) (range_end m2 size) size) eqn:Hu.
  - by eapply out_unsatisfiable.
  - by eapply out_partial.
Qed.

Lemma accepted_name_unique raw name name' :
  accepted_name raw name -> accepted_name raw name' -> name = name'.
Proof. intros (Hd & _) (Hd' & _). congruence. Qed.

End Outcomes.

(** ** Rejections and failures *)

Section FailureClaims.

Context `{Platform}.
Implicit Types (fs : filesystem).

Lemma piped_open_error fs p e opts :
  open_read fs p = inl e -> piped_bytes fs p opts = [].
Proof. intros He. unfold piped_bytes. by rewrite He. Qed.

(** C2, as amended.  For an accepted name whose [stat] succeeds: a
    non-empty header in which the range pattern occurs at no index, and
    in particular every suffix-form header ["bytes=-<length>"], is
    answered 416 "Malformed Range header." after that one [stat], without
    opening the file; the empty header is handled as an absent one. *)
Theorem malformed_range_rejected fs raw name size :
  accepted_name raw name ->
  stat fs (videoPath name) = inr size ->
  let out range := serve (stream_handler fs (mk_request raw range)) in
  (forall h, h <> "" -> ~ range_pattern_occurs h ->
     out (Some h) = (Some (send 416 "Malformed Range header."),
                     [OpStat (videoPath name)]))
  /\ (forall d, all_digits d = true ->
        out (Some ("bytes=-" +:+ d))
        = (Some (send 416 "Malformed Range header."),
           [OpStat (videoPath name)]))
  /\ out (Some "") = out None.
Proof.
  intros Hacc Hstat out. split; [|split].
  - intros h Hne Hocc. apply range_match_None in Hocc.
    by apply (serve_malformed fs (mk_request raw (Some h)) name size h).
  - intros d Hd.
    apply (serve_malformed fs (mk_request raw _) name size ("bytes=-" +:+ d));
      [done..|by apply range_match_suffix_form].
  - unfold out.
    rewrite (serve_no_range fs (mk_request raw (Some "")) name size Hacc Hstat)
      by (by right).
    by rewrite (serve_no_range fs (mk_request raw None) name size Hacc Hstat)
      by (by left).
Qed.

(** C6, as amended.  Every request is answered.  A 400 or 415 answer is
    given before any file-system operation.  A 416 answer is given for an
    accepted name after exactly one [stat], which succeeded, and without
    opening the file.  When the [stat] of an accepted name fails the
    answer is 404 or 500 whatever the [Range] header.  A read stream is
    created only for a 200 or 206 answer, and then the trace is that one
    [stat] followed by the stream. *)
Theorem validation_order fs raw range :
  let out := serve (stream_handler fs (mk_request raw range)) in
  exists r,
    out.1 = Some r
    /\ (status r = 400 \/ status r = 415 -> out.2 = [])
    /\ (status r = 416 ->
        exists name size,
          accepted_name raw name
          /\ stat fs (videoPath name) = inr size
          /\ out.2 = [OpStat (videoPath name)])
    /\ (forall name e,
          accepted_name raw name ->
          stat fs (videoPath name) = inl e ->
          (status r = 404 \/ status r = 500)
          /\ out.2 = [OpStat (videoPath name)])
    /\ (forall p opts,
          In (OpCreateReadStream p opts) out.2 ->
          (status r = 200 \/ status r = 206)
          /\ out.2 = [OpStat p; OpCreateReadStream p opts]).
Proof.
  intros out. subst out.
  pose proof (serve_stream_outcome fs raw range) as Hout.
  inversion Hout as
    [ Hdec
    | name Hdec Hbase
    | name Hdec Hbase Hext
    | name e Hacc Hstat
    | name size Hacc Hstat Hrange
    | name size h Hacc Hstat Hrange Hne Hm
    | name size h m1 m2 Hacc Hstat Hrange Hm Hu
    | name size h m1 m2 Hacc Hstat Hrange Hm Hu ];
    eexists; (split; [reflexivity|]); cbn [fst snd status send].
  - split; [done|]. split; [intros; lia|]. split.
    + intros name0 e (Hd & _) _. congruence.
    + intros p opts [].
  - split; [done|]. split; [intros; lia|]. split.
    + intros name0 e (Hd & Hb & _) _. congruence.
    + intros p opts [].
  - split; [done|]. split; [intros; lia|]. split.
    + intros name0 e (Hd & _ & He) _. congruence.
    + intros p opts [].
  - split; [destruct e; cbn; intros; lia|].
    split; [destruct e; cbn; intros; lia|].
    split.
    + intros name' e' Hacc' _.
      rewrite <- (accepted_name_unique _ _ _ Hacc Hacc').
      split; [destruct e; cbn; lia | done].
    + intros p opts [Hp|[]]. done.
  - split; [intros; lia|]. split; [intros; lia|]. split.
    + intros name' e' Hacc' Hstat'.
      rewrite <- (accepted_name_unique _ _ _ Hacc Hacc') in Hstat'. congruence.
    + intros p opts [Hp|[Hp|[]]]; [done|]. simplify_eq. split; [lia|done].
  - split; [intros; lia|]. split; [intros _; eauto|]. split.
    + intros name' e' Hacc' Hstat'.
      rewrite <- (accepted_name_unique _ _ _ Hacc Hacc') in Hstat'. congruence.
    + intros p opts [Hp|[]]. done.
  - split; [intros; lia|]. split; [intros _; eauto|]. split.
    + intros name' e' Hacc' Hstat'.
      rewrite <- (accepted_name_unique _ _ _ Hacc Hacc') in Hstat'. congruence.
    + intros p opts [Hp|[]]. done.
  - split; [intros; lia|]. split; [intros; lia|]. split.
    + intros name' e' Hacc' Hstat'.
      rewrite <- (accepted_name_unique _ _ _ Hacc Hacc') in Hstat'. congruence.
    + intros p opts [Hp|[Hp|[]]]; [done|]. simplify_eq. split; [lia|done].
Qed.

(** C7, as amended.  For an accepted name: when [stat] fails because
    the file does not exist the answer is 404, and when it fails for any
    other reason the answer is 500; nothing else is done.  When [stat]
    succeeds but the file cannot be opened, the answer keeps the status
    decided before the stream was created (200, 206 or 416, never 404 or
    500), and a 200 or 206 answer has an empty body. *)
Theorem access_failures fs raw name range :
  accepted_name raw name ->
  let out := serve (stream_handler fs (mk_request raw range)) in
  (forall e, stat fs (videoPath name) = inl e ->
     out = (Some (match e with
                  | ENOENT => send 404 "Not found."
                  | _ => send 500 "Server error."
                  end),
            [OpStat (videoPath name)]))
  /\ (forall size e,
        stat fs (videoPath name) = inr size ->
        open_read fs (videoPath name) = inl e ->
        exists r,
          out.1 = Some r
          /\ (status r = 200 \/ status r = 206 \/ status r = 416)
          /\ (status r = 200 \/ status r = 206 -> body r = Stream [])).
Proof.
  intros Hacc out. split.
  - intros e Hstat.
    by apply (serve_stat_error fs (mk_request raw range) name e).
  - intros size e Hstat Hopen. subst out.
    pose proof (serve_stream_outcome fs raw range) as Hout.
    inversion Hout as
      [ Hdec
      | name' Hdec Hbase
      | name' Hdec Hbase Hext
      | name' e' Hacc' Hstat'
      | name' size' Hacc' Hstat' Hrange
      | name' size' h Hacc' Hstat' Hrange Hne Hm
      | name' size' h m1 m2 Hacc' Hstat' Hrange Hm Hu
      | name' size' h m1 m2 Hacc' Hstat' Hrange Hm Hu ];
      try (destruct Hacc as (Hd & Hb & He); congruence);
      try rewrite <- (accepted_name_unique _ _ _ Hacc Hacc') in *;
      try congruence;
      eexists; (split; [reflexivity|]); cbn [status body send];
      rewrite ?(piped_open_error _ _ _ _ Hopen);
      (split; [lia | try done; intros; lia]).
Qed.

(** C10, as amended.  For an accepted name whose file is empty: every
    non-empty [Range] header is answered 416 without opening the file; no
    header at all leads to a 206; without a header the answer is 200 with
    [Content-Length: 0] and an empty body; and the empty header is
    handled as an absent one. *)
Theorem empty_file_requests fs raw name readable :
  accepted_name raw name ->
  fs !! videoPath name = Some (File [] readable) ->
  let out range := serve (stream_handler fs (mk_request raw range)) in
  (forall h, h <> "" ->
     exists msg, out (Some h) = (Some (send 416 msg),
                                 [OpStat (videoPath name)]))
  /\ (forall range r, (out range).1 = Some r -> status r <> 206)
  /\ out None
     = (Some {| status := 200;
                headers := [ ("Content-Length", HNum 0);
                             ("Content-Type", HStr (getContentType name)) ];
                body := Stream [] |},
        [OpStat (videoPath name); OpCreateReadStream (videoPath name) None])
  /\ out (Some "") = out None.
Proof.
  intros Hacc Hfile out.
  pose proof (stat_file _ _ _ _ Hfile) as Hstat.
  change (file_size []) with 0 in Hstat.
  assert (piped_bytes fs (videoPath name) None = []) as Hpiped.
  { unfold piped_bytes, open_read. rewrite Hfile. by destruct readable. }
  assert (forall h, h <> "" ->
            exists msg, out (Some h) = (Some (send 416 msg),
                                        [OpStat (videoPath name)])) as H416.
  { intros h Hne. unfold out.
    destruct (range_match h) as [[m1 m2]|] eqn:Hm.
    - rewrite (serve_matched fs (mk_request raw (Some h)) name 0 h m1 m2
                 Hacc Hstat eq_refl Hm). cbv zeta.
      rewrite (proj2 (unsatisfiable_spec (parseInt m1) (range_end m2 0) 0)).
      + eauto.
      + pose proof (parseInt_nonneg m1). lia.
    - rewrite (serve_malformed fs (mk_request raw (Some h)) name 0 h
                 Hacc Hstat eq_refl Hne Hm). eauto. }
  assert (out None
          = (Some {| status := 200;
                     headers := [ ("Content-Length", HNum 0);
                                  ("Content-Type", HStr (getContentType name)) ];
                     body := Stream [] |},
             [OpStat (videoPath name);
              OpCreateReadStream (videoPath name) None])) as H200.
  { unfold out.
    rewrite (serve_no_range fs (mk_request raw None) name 0 Hacc Hstat)
      by (by left).
    by rewrite Hpiped. }
  assert (out (Some "") = out None) as Hempty.
  { unfold out.
    rewrite (serve_no_range fs (mk_request raw (Some "")) name 0 Hacc Hstat)
      by (by right).
    by rewrite (serve_no_range fs (mk_request raw None) name 0 Hacc Hstat)
      by (by left). }
  split; [done|]. split; [|done].
  intros range r Hr.
  destruct range as [h|].
  - destruct (decide (h = "")) as [->|Hne].
    + rewrite Hempty, H200 in Hr. cbn in Hr. simplify_eq. cbn. lia.
    + destruct (H416 h Hne) as [msg Hmsg]. rewrite Hmsg in Hr. cbn in Hr. simplify_eq. cbn. lia.
  - rewrite H200 in Hr. cbn in Hr. simplify_eq. cbn. lia.
Qed.

End FailureClaims.

(** ** Answers to every request *)

Section Answers.

Context `{Platform}.
Implicit Types (fs : filesystem).

(** For a file system whose sizes are safe integers: every request to the
    stream endpoint is answered, with one of seven status codes, and every
    call of [fs.createReadStream] the handler makes passes the check of
    its options, [0 <= start <= end <= Number.MAX_SAFE_INTEGER], so that
    no call throws after the head of the answer has been written. *)
Theorem stream_always_answers fs raw range :
  safe_sizes fs ->
  exists r t,
    serve (stream_handler fs (mk_request raw range)) = (Some r, t)
    /\ In (status r) [200; 206; 400; 404; 415; 416; 500]
    /\ (forall p opts,
          In (OpCreateReadStream p opts) t ->
          createReadStream_accepts opts = true).
Proof.
  intros Hsafe.
  pose proof (serve_stream_outcome fs raw range) as Hout.
  remember (serve (stream_handler fs (mk_request raw range))) as out eqn:Ho.
  clear Ho.
  destruct Hout as
    [ Hdec
    | name Hdec Hbase
    | name Hdec Hbase Hext
    | name e Hacc Hstat
    | name size Hacc Hstat Hrange
    | name size h Hacc Hstat Hrange Hne Hm
    | name size h m1 m2 Hacc Hstat Hrange Hm Hu
    | name size h m1 m2 Hacc Hstat Hrange Hm Hu ];
    eexists _, _; (split; [reflexivity|]);
    (split; [try destruct e; cbn; tauto|]);
    intros p opts Hin; cbn [In] in Hin;
    repeat (destruct Hin as [Hin|Hin]; [try discriminate Hin|]);
    try (by destruct Hin).
  - by injection Hin as _ <-.
  - injection Hin as _ <-.
    apply unsatisfiable_false in Hu as (Hs & He & Hse).
    pose proof (parseInt_nonneg m1) as Hs0.
    pose proof (Hsafe _ _ Hstat) as Hsize.
    unfold createReadStream_accepts.
    rewrite !andb_true_iff, !Z.leb_le. lia.
Qed.

(** The range pattern is looked for anywhere in the header: for an
    accepted name whose [stat] succeeds, a header that holds an occurrence
    of the pattern, whatever surrounds it, is never refused as malformed;
    it is answered 206, or 416 "Requested range not satisfiable.". *)
Theorem range_pattern_anywhere fs raw name size h :
  accepted_name raw name ->
  stat fs (videoPath name) = inr size ->
  range_pattern_occurs h ->
  exists r,
    (serve (stream_handler fs (mk_request raw (Some h)))).1 = Some r
    /\ (status r = 206
        \/ r = send 416 "Requested range not satisfiable.").
Proof.
  intros Hacc Hstat Hocc.
  apply range_match_is_Some in Hocc as [[m1 m2] Hm].
  rewrite (serve_matched fs (mk_request raw (Some h)) name size h m1 m2
             Hacc Hstat eq_refl Hm). cbv zeta.
  destruct (unsatisfiable _ _ _); eexists; (split; [reflexivity|]); auto.
Qed.

End Answers.

(** ** The listing handler *)

Section Listing.

Context `{Platform}.
Implicit Types (fs : filesystem).

Lemma readdir_or_empty_run fs dir t :
  readdir_or_empty fs dir t
  = (match readdir fs dir with
     | inl ENOENT => inr []
     | inl e => inl (SystemError e)
     | inr entries => inr entries
     end,
     t ++ [OpReaddir dir]).
Proof.
  unfold readdir_or_empty, try_catch, fsp_readdir.
  destruct (readdir fs dir) as [[]|entries]; reflexivity.
Qed.

Lemma serve_list_ok fs videoEntries pictureEntries :
  (readdir fs VIDEOS_DIR = inl ENOENT /\ videoEntries = []
   \/ readdir fs VIDEOS_DIR = inr videoEntries) ->
  (readdir fs PICTURES_DIR = inl ENOENT /\ pictureEntries = []
   \/ readdir fs PICTURES_DIR = inr pictureEntries) ->
  serve (list_handler fs)
  = (Some {| status := 200; headers := [];
             body := JsonMedia
                       (sort_names (media_files VIDEO_EXTENSIONS videoEntries))
                       (sort_names (media_files IMAGE_EXTENSIONS pictureEntries)) |},
     [OpReaddir VIDEOS_DIR; OpReaddir PICTURES_DIR]).
Proof.
  intros Hv Hp. unfold serve, run, list_handler, try_catch, list_try.
  unfold mbind, IO_bind, promise_all2. rewrite !readdir_or_empty_run.
  by destruct Hv as [[-> ->] | ->], Hp as [[-> ->] | ->].
Qed.

Lemma serve_list_error fs e :
  e <> ENOENT ->
  readdir fs VIDEOS_DIR = inl e \/ readdir fs PICTURES_DIR = inl e ->
  serve (list_handler fs)
  = (Some {| status := 500; headers := [];
             body := JsonError "Could not read media folders." |},
     [OpReaddir VIDEOS_DIR; OpReaddir PICTURES_DIR]).
Proof.
  intros Hne He. unfold serve, run, list_handler, try_catch, list_try.
  unfold mbind, IO_bind, promise_all2. rewrite !readdir_or_empty_run.
  destruct He as [-> | ->].
  - destruct e; try done;
      by destruct (readdir fs PICTURES_DIR) as [[]|?].
  - destruct e; try done;
      by destruct (readdir fs VIDEOS_DIR) as [[]|?].
Qed.

Lemma readdir_absent fs dir : fs !! dir = None -> readdir fs dir = inl ENOENT.
Proof. intros Hd. unfold readdir. by rewrite Hd. Qed.

Lemma readdir_dir fs dir size entries :
  fs !! dir = Some (Dir size entries) -> readdir fs dir = inr entries.
Proof. intros Hd. unfold readdir. by rewrite Hd. Qed.

Lemma media_files_nil allowed : media_files allowed [] = [].
Proof. reflexivity. Qed.

Lemma sort_names_nil : sort_names [] = [].
Proof. reflexivity. Qed.

Lemma elem_of_media_files allowed entries name :
  name ∈ media_files allowed entries
  <-> exists e, e ∈ entries /\ d_kind e = RegularFile /\ d_name e = name
                /\ toLowerCase (path.extname name) ∈ allowed.
Proof.
  unfold media_files. rewrite list_elem_of_filter, list_elem_of_fmap.
  split.
  - intros (Hext & e & -> & He). apply list_elem_of_filter in He as [Hf He].
    exists e. repeat split; try done.
    unfold isFile in Hf. by destruct (d_kind e).
  - intros (e & He & Hk & <- & Hext). split; [done|].
    exists e. split; [done|]. apply list_elem_of_filter. split; [|done].
    unfold isFile. by rewrite Hk.
Qed.

Lemma sort_names_sorted `{!Total locale_le, !Transitive locale_le} names :
  StronglySorted locale_le (sort_names names).
Proof. unfold sort_names. apply StronglySorted_merge_sort; apply _. Qed.

Lemma sort_names_perm names : sort_names names ≡ₚ names.
Proof. apply merge_sort_Permutation. Qed.

Lemma elem_of_sorted_media allowed entries name :
  name ∈ sort_names (media_files allowed entries)
  <-> exists e, e ∈ entries /\ d_kind e = RegularFile /\ d_name e = name
                /\ toLowerCase (path.extname name) ∈ allowed.
Proof. by rewrite sort_names_perm, elem_of_media_files. Qed.

Lemma video_extensions_iff ext :
  ext ∈ VIDEO_EXTENSIONS <-> In ext [".mp4"; ".webm"].
Proof.
  unfold VIDEO_EXTENSIONS. rewrite elem_of_union, !elem_of_singleton.
  simpl. intuition.
Qed.

Lemma image_extensions_iff ext :
  ext ∈ IMAGE_EXTENSIONS <-> In ext [".jpg"; ".jpeg"].
Proof.
  unfold IMAGE_EXTENSIONS. rewrite elem_of_union, !elem_of_singleton.
  simpl. intuition.
Qed.

(** C8.  Under a collation order that is total and transitive.  When
    one media root is absent and the other is a readable directory, the
    listing answers 200 with the empty list for the absent root and, for
    the other, the names of its regular files whose lower-cased extension
    is allowed for that root, each as often as it is listed, in ascending
    order; when both are absent it answers 200 with two empty lists.  When
    reading either root fails for another reason than absence, the listing
    answers 500 with an error body and no list. *)
Theorem listing_roots fs :
  Total locale_le -> Transitive locale_le ->
  let out := serve (list_handler fs) in
  (forall size entries,
     fs !! VIDEOS_DIR = None ->
     fs !! PICTURES_DIR = Some (Dir size entries) ->
     exists pictures,
       out.1 = Some {| status := 200; headers := [];
                       body := JsonMedia [] pictures |}
       /\ StronglySorted locale_le pictures
       /\ pictures ≡ₚ media_files IMAGE_EXTENSIONS entries
       /\ forall name,
            name ∈ pictures
            <-> exists e, e ∈ entries /\ d_kind e = RegularFile
                          /\ d_name e = name
                          /\ In (toLowerCase (path.extname name))
                               [".jpg"; ".jpeg"])
  /\ (forall size entries,
        fs !! PICTURES_DIR = None ->
        fs !! VIDEOS_DIR = Some (Dir size entries) ->
        exists videos,
          out.1 = Some {| status := 200; headers := [];
                          body := JsonMedia videos [] |}
          /\ StronglySorted locale_le videos
          /\ videos ≡ₚ media_files VIDEO_EXTENSIONS entries
          /\ forall name,
               name ∈ videos
               <-> exists e, e ∈ entries /\ d_kind e = RegularFile
                             /\ d_name e = name
                             /\ In (toLowerCase (path.extname name))
                                  [".mp4"; ".webm"])
  /\ (fs !! VIDEOS_DIR = None -> fs !! PICTURES_DIR = None ->
      out.1 = Some {| status := 200; headers := [];
                      body := JsonMedia [] [] |})
  /\ (forall e,
        e <> ENOENT ->
        readdir fs VIDEOS_DIR = inl e \/ readdir fs PICTURES_DIR = inl e ->
        out.1 = Some {| status := 500; headers := [];
                        body := JsonError "Could not read media folders." |}).
Proof.
  intros Htotal Htrans out. split; [|split; [|split]].
  - intros size entries Hv Hp.
    exists (sort_names (media_files IMAGE_EXTENSIONS entries)).
    split; [|split; [apply sort_names_sorted
                    |split; [apply sort_names_perm|]]].
    + unfold out.
      by rewrite (serve_list_ok fs [] entries)
        by (first [left; split; [by apply readdir_absent|done]
                  |right; by eapply readdir_dir]).
    + intros name. rewrite elem_of_sorted_media.
      by setoid_rewrite image_extensions_iff.
  - intros size entries Hp Hv.
    exists (sort_names (media_files VIDEO_EXTENSIONS entries)).
    split; [|split; [apply sort_names_sorted
                    |split; [apply sort_names_perm|]]].
    + unfold out.
      by rewrite (serve_list_ok fs entries [])
        by (first [left; split; [by apply readdir_absent|done]
                  |right; by eapply readdir_dir]).
    + intros name. rewrite elem_of_sorted_media.
      by setoid_rewrite video_extensions_iff.
  - intros Hv Hp. unfold out.
    by rewrite (serve_list_ok fs [] [])
      by (left; split; [by apply readdir_absent|done]).
  - intros e Hne He. unfold out. by rewrite (serve_list_error fs e Hne He).
Qed.

End Listing.

(** ** Partitions of a file *)

Section Partition.

Context `{Platform}.
Implicit Types (fs : filesystem).



End Partition.

(** ** The handlers on the demonstration platform *)

Lemma demo_locale_le a b :
  locale_le (H := demo_platform) a b <-> String.le a b.
Proof.
  unfold locale_le, String.le, String.leb. cbn [localeCompare demo_platform].
  unfold byte_compare. destruct (String.compare a b); cbn; split; done || lia.
Qed.

Lemma demo_locale_total : Total (locale_le (H := demo_platform)).
Proof. intros a b. rewrite !demo_locale_le. apply total, _. Qed.

Lemma demo_locale_trans : Transitive (locale_le (H := demo_platform)).
Proof. intros a b c. rewrite !demo_locale_le. apply transitivity. Qed.

Lemma demo_accepted name :
  path.basename name = name ->
  In (toLowerCase (path.extname name)) [".mp4"; ".webm"; ".jpg"; ".jpeg"] ->
  percent_decode name = Some name ->
  accepted_name (H := demo_platform) name name.
Proof.
  intros Hb He Hd. split; [done|]. split; [done|]. by apply allowed_iff.
Qed.

Lemma range_request_served_witness :
  exists bytes,
    serve (stream_handler (H := demo_platform) demo_fs
             (mk_request "a.mp4" (Some (range_header 1 (Some 3)))))
    = (Some {| status := 206;
               headers :=
                 [ ("Content-Range", HStr "bytes 1-3/5");
                   ("Accept-Ranges", HStr "bytes");
                   ("Content-Length", HNum 3);
                   ("Content-Type", HStr "video/mp4") ];
               body := Stream bytes |},
       [ OpStat "/srv/videos/a.mp4";
         OpCreateReadStream "/srv/videos/a.mp4" (Some (1, 3)) ])
    /\ Z.of_nat (length bytes) = 3
    /\ forall i, 0 <= i <= 2 ->
         bytes !! Z.to_nat i = demo_data !! Z.to_nat (1 + i).
Proof.
  apply (range_request_served (H := demo_platform) demo_fs
           "a.mp4" "a.mp4" demo_data 1 3 (Some 3)).
  - apply demo_accepted; vm_compute; auto.
  - vm_compute. reflexivity.
  - lia.
  - lia.
  - vm_compute. reflexivity.
  - left. reflexivity.
Defined.

Lemma range_validation_witness :
  let out := serve (stream_handler (H := demo_platform) demo_fs
                      (mk_request "a.mp4" (Some "bytes=1-3"))) in
  (out.1 = Some (send 416 "Requested range not satisfiable.")
   <-> 1 >= 5 \/ 3 >= 5 \/ 1 > 3)
  /\ (~ (1 >= 5 \/ 3 >= 5 \/ 1 > 3) ->
      exists bytes,
        out = (Some {| status := 206;
                       headers := partial_head "a.mp4" 1 3 5;
                       body := Stream bytes |},
               [ OpStat "/srv/videos/a.mp4";
                 OpCreateReadStream "/srv/videos/a.mp4" (Some (1, 3)) ]))
  /\ (forall range p s e,
        In (OpCreateReadStream p (Some (s, e)))
           (serve (stream_handler (H := demo_platform) demo_fs
                     (mk_request "a.mp4" range))).2 ->
        0 <= s /\ s <= e /\ e < 5).
Proof.
  apply (range_validation (H := demo_platform) demo_fs "a.mp4" "a.mp4" 5
           "bytes=1-3" "1" "3").
  - apply demo_accepted; vm_compute; auto.
  - vm_compute. reflexivity.
  - vm_compute. reflexivity.
Defined.

Lemma full_request_served_witness :
  serve (stream_handler (H := demo_platform) demo_fs (mk_request "a.mp4" None))
  = (Some {| status := 200;
             headers := [ ("Content-Length", HNum 5);
                          ("Content-Type", HStr "video/mp4") ];
             body := Stream demo_data |},
     [ OpStat "/srv/videos/a.mp4";
       OpCreateReadStream "/srv/videos/a.mp4" None ]).
Proof.
  apply (full_request_served (H := demo_platform) demo_fs "a.mp4" "a.mp4" demo_data).
  - apply demo_accepted; vm_compute; auto.
  - vm_compute. reflexivity.
Defined.

Lemma name_checks_first_witness :
  let out := serve (stream_handler (H := demo_platform) demo_fs
                      (mk_request "..%2Fa.mp4" None)) in
  (path.basename "../a.mp4" <> "../a.mp4" ->
   out = (Some (send 400 "Invalid file name."), []))
  /\ (path.basename "../a.mp4" = "../a.mp4" ->
      ~ In (toLowerCase (path.extname "../a.mp4"))
          [".mp4"; ".webm"; ".jpg"; ".jpeg"] ->
      out = (Some (send 415 "Unsupported media type."), []))
  /\ (out.2 <> [] ->
      path.basename "../a.mp4" = "../a.mp4"
      /\ In (toLowerCase (path.extname "../a.mp4"))
           [".mp4"; ".webm"; ".jpg"; ".jpeg"]).
Proof.
  apply (name_checks_first (H := demo_platform) demo_fs "..%2Fa.mp4" "../a.mp4" None).
  vm_compute. reflexivity.
Defined.

Lemma listing_roots_witness :
  exists pictures,
    (serve (list_handler (H := demo_platform) demo_fs)).1
    = Some {| status := 200; headers := [];
              body := JsonMedia [] pictures |}
    /\ StronglySorted (locale_le (H := demo_platform)) pictures
    /\ pictures ≡ₚ media_files IMAGE_EXTENSIONS demo_pictures
    /\ forall name,
         name ∈ pictures
         <-> exists e, e ∈ demo_pictures /\ d_kind e = RegularFile
                       /\ d_name e = name
                       /\ In (toLowerCase (path.extname name)) [".jpg"; ".jpeg"].
Proof.
  apply (proj1 (listing_roots (H := demo_platform) demo_fs
                  demo_locale_total demo_locale_trans) 4096 demo_pictures).
  - vm_compute. reflexivity.
  - vm_compute. reflexivity.
Defined.


Lemma malformed_range_rejected_witness :
  let out range := serve (stream_handler (H := demo_platform) demo_fs
                            (mk_request "a.mp4" range)) in
  (forall h, h <> "" -> ~ range_pattern_occurs h ->
     out (Some h) = (Some (send 416 "Malformed Range header."),
                     [OpStat "/srv/videos/a.mp4"]))
  /\ (forall d, all_digits d = true ->
        out (Some ("bytes=-" +:+ d))
        = (Some (send 416 "Malformed Range header."),
           [OpStat "/srv/videos/a.mp4"]))
  /\ out (Some "") = out None.
Proof.
  apply (malformed_range_rejected (H := demo_platform) demo_fs "a.mp4" "a.mp4" 5).
  - apply demo_accepted; vm_compute; auto.
  - vm_compute. reflexivity.
Defined.

Lemma access_failures_witness :
  serve (stream_handler (H := demo_platform) demo_fs
           (mk_request "missing.mp4" None))
  = (Some (send 404 "Not found."), [OpStat "/srv/videos/missing.mp4"])
  /\ serve (stream_handler (H := demo_platform) demo_faulty
              (mk_request "a.mp4" (Some "bytes=0-1")))
     = (Some (send 500 "Server error."), [OpStat "/srv/videos/a.mp4"])
  /\ exists r,
       (serve (stream_handler (H := demo_platform) demo_fs
                 (mk_request "locked.mp4" None))).1 = Some r
       /\ (status r = 200 \/ status r = 206 \/ status r = 416)
       /\ (status r = 200 \/ status r = 206 -> body r = Stream []).
Proof.
  split; [|split].
  - apply (proj1 (access_failures (H := demo_platform) demo_fs
                    "missing.mp4" "missing.mp4" None
                    ltac:(apply demo_accepted; vm_compute; auto))
             ENOENT).
    vm_compute. reflexivity.
  - apply (proj1 (access_failures (H := demo_platform) demo_faulty
                    "a.mp4" "a.mp4" (Some "bytes=0-1")
                    ltac:(apply demo_accepted; vm_compute; auto))
             EIO).
    vm_compute. reflexivity.
  - apply (proj2 (access_failures (H := demo_platform) demo_fs
                    "locked.mp4" "locked.mp4" None
                    ltac:(apply demo_accepted; vm_compute; auto))
             5 EACCES).
    + vm_compute. reflexivity.
    + vm_compute. reflexivity.
Defined.

Lemma empty_file_requests_witness :
  let out range := serve (stream_handler (H := demo_platform) demo_fs
                            (mk_request "empty.mp4" range)) in
  (forall h, h <> "" ->
     exists msg, out (Some h) = (Some (send 416 msg),
                                 [OpStat "/srv/videos/empty.mp4"]))
  /\ (forall range r, (out range).1 = Some r -> status r <> 206)
  /\ out None
     = (Some {| status := 200;
                headers := [ ("Content-Length", HNum 0);
                             ("Content-Type", HStr "video/mp4") ];
                body := Stream [] |},
        [OpStat "/srv/videos/empty.mp4";
         OpCreateReadStream "/srv/videos/empty.mp4" None])
  /\ out (Some "") = out None.
Proof.
  apply (empty_file_requests (H := demo_platform) demo_fs "empty.mp4" "empty.mp4" true).
  - apply demo_accepted; vm_compute; auto.
  - vm_compute. reflexivity.
Defined.

Lemma range_pattern_anywhere_witness :
  exists r,
    (serve (stream_handler (H := demo_platform) demo_fs
              (mk_request "a.mp4" (Some "items=3;bytes=1-2;q=0")))).1 = Some r
    /\ (status r = 206
        \/ r = send 416 "Requested range not satisfiable.").
Proof.
  apply (range_pattern_anywhere (H := demo_platform) demo_fs
           "a.mp4" "a.mp4" 5 "items=3;bytes=1-2;q=0").
  - apply demo_accepted; vm_compute; auto.
  - vm_compute. reflexivity.
  - exists "items=3;", "1", "2;q=0". by vm_compute.
Defined.

(** The sizes of the demonstration installation are safe integers. *)
Lemma demo_safe_sizes : safe_sizes demo_fs.
Proof.
  intros p size Hstat. unfold stat in Hstat.
  destruct (demo_fs !! p) as [nd|] eqn:Hp; [|discriminate].
  assert (map_Forall
            (fun _ nd => match nd with
                         | File data _ => file_size data <= MAX_SAFE_INTEGER
                         | Dir n _ => n <= MAX_SAFE_INTEGER
                         | Faulty _ => True
                         end) demo_fs) as Hall.
  { unfold demo_fs.
    repeat (apply map_Forall_insert_2; [by vm_compute|]).
    apply map_Forall_empty. }
  specialize (Hall p nd Hp). destruct nd; by simplify_eq.
Qed.

Lemma stream_always_answers_witness :
  safe_sizes demo_fs
  /\ exists r t,
       serve (stream_handler (H := demo_platform) demo_fs
                (mk_request "a.mp4" (Some "bytes=1-3")))
       = (Some r, t)
       /\ In (status r) [200; 206; 400; 404; 415; 416; 500]
       /\ (forall p opts,
             In (OpCreateReadStream p opts) t ->
             createReadStream_accepts opts = true).
Proof.
  split; [exact demo_safe_sizes|].
  apply (stream_always_answers (H := demo_platform) demo_fs "a.mp4"
           (Some "bytes=1-3")).
  exact demo_safe_sizes.
Defined.

(** ** Names that reach the file system *)

Lemma basename_keeps_name name :
  no_slash (list_ascii_of_string name) = true -> path.basename name = name.
Proof.
  intros Hns. unfold path.basename, str_length.
  pose proof (basename_loop_spec (rev (list_ascii_of_string name))
                (Z.of_nat (String.length name) - 1)) as Hspec.
  rewrite length_rev, length_list_ascii in Hspec. specialize (Hspec eq_refl).
  cbv zeta in Hspec. rewrite no_slash_rev, Hns in Hspec.
  set (r := path.basename_loop _ _ _) in *.
  destruct Hspec as [[Hnil He] | [(Hne & _ & Hs & He) | (Hfalse & _)]];
    [| |done].
  - rewrite He. simpl.
    assert (list_ascii_of_string name = []) as Hname.
    { by rewrite <- (rev_involutive (list_ascii_of_string name)), Hnil. }
    destruct name; [done | discriminate Hname].
  - rewrite He, Hs.
    replace (Z.of_nat (String.length name) - 1 + 1 =? -1) with false by lia.
    unfold slice.
    replace (Z.to_nat (Z.of_nat (String.length name) - 1 + 1 - 0))
      with (String.length name) by lia.
    change (Z.to_nat 0) with 0%nat. by rewrite substring_all.
Qed.

Lemma basename_own_no_slash name :
  path.basename name = name -> no_slash (list_ascii_of_string name) = true.
Proof.
  intros Heq. destruct (no_slash (list_ascii_of_string name)) eqn:Hns; [done|].
  exfalso. revert Heq. unfold path.basename, str_length.
  pose proof (basename_loop_spec (rev (list_ascii_of_string name))
                (Z.of_nat (String.length name) - 1)) as Hspec.
  rewrite length_rev, length_list_ascii in Hspec. specialize (Hspec eq_refl).
  cbv zeta in Hspec. rewrite no_slash_rev, Hns in Hspec.
  set (r := path.basename_loop _ _ _) in *.
  assert (name <> "") as Hname by (by intros ->).
  destruct Hspec as [[Hnil He] | [(_ & Hfalse & _) | (_ & Hr)]]; [|done|].
  - apply (f_equal (@length ascii)) in Hnil.
    rewrite length_rev, length_list_ascii in Hnil. by destruct name.
  - destruct Hr as [He | (H0 & Hse & Hlt)].
    + rewrite He. simpl. congruence.
    + destruct (path.bn_end r =? -1); [congruence|].
      intros Heq. apply (f_equal String.length) in Heq. unfold slice in Heq.
      pose proof (substring_length_le (Z.to_nat (path.bn_start r))
                    (Z.to_nat (path.bn_end r - path.bn_start r)) name).
      lia.
Qed.

Lemma extension_sets_disjoint ext :
  ext ∈ VIDEO_EXTENSIONS -> ext ∈ IMAGE_EXTENSIONS -> False.
Proof.
  rewrite video_extensions_iff, image_extensions_iff. simpl.
  intros [<-|[<-|[]]] [?|[?|[]]]; discriminate.
Qed.

Lemma allowed_split ext :
  ext ∈ ALLOWED_EXTENSIONS
  <-> ext ∈ VIDEO_EXTENSIONS \/ ext ∈ IMAGE_EXTENSIONS.
Proof. unfold ALLOWED_EXTENSIONS. apply elem_of_union. Qed.

Section Resolution.

Context `{Platform}.
Implicit Types (fs : filesystem).

Lemma videoPath_video name :
  toLowerCase (path.extname name) ∈ VIDEO_EXTENSIONS ->
  videoPath name = path.join VIDEOS_DIR name.
Proof.
  intros Hext. unfold videoPath, has. by rewrite bool_decide_eq_true_2.
Qed.

Lemma videoPath_image name :
  toLowerCase (path.extname name) ∈ IMAGE_EXTENSIONS ->
  videoPath name = path.join PICTURES_DIR name.
Proof.
  intros Hext. unfold videoPath, has. rewrite bool_decide_eq_false_2; [done|].
  intros Hv. by eapply extension_sets_disjoint.
Qed.

Lemma accepted_name_shape raw name :
  accepted_name raw name ->
  no_slash (list_ascii_of_string name) = true
  /\ name <> "" /\ name <> "." /\ name <> "..".
Proof.
  intros (_ & Hbase & Hext). split; [by apply basename_own_no_slash|].
  apply allowed_iff in Hext.
  repeat split; intros ->; vm_compute in Hext;
    repeat (destruct Hext as [Hext|Hext]; [discriminate Hext|]); done.
Qed.

(** Every file-system operation of a stream request works on a file that
    lies directly in one of the two media directories: its path is the
    directory joined with the decoded name, which holds no slash and is
    neither empty nor ["."] nor [".."]; the directory is the one of the
    videos for the extensions [.mp4] and [.webm] and the one of the
    pictures for [.jpg] and [.jpeg]; and no directory is ever listed. *)
Theorem stream_paths_contained fs raw range op :
  In op (serve (stream_handler fs (mk_request raw range))).2 ->
  exists name root,
    decodeURIComponent raw = Some name
    /\ no_slash (list_ascii_of_string name) = true
    /\ name <> "" /\ name <> "." /\ name <> ".."
    /\ (root = VIDEOS_DIR
        /\ In (toLowerCase (path.extname name)) [".mp4"; ".webm"]
        \/ root = PICTURES_DIR
           /\ In (toLowerCase (path.extname name)) [".jpg"; ".jpeg"])
    /\ op_path op = path.join root name
    /\ (forall p, op <> OpReaddir p).
Proof.
  intros Hin.
  assert (exists name, accepted_name raw name
                       /\ op_path op = videoPath name
                       /\ forall p, op <> OpReaddir p) as (name & Hacc & Hop & Hrd).
  { pose proof (serve_stream_outcome fs raw range) as Hout.
    remember (serve (stream_handler fs (mk_request raw range))) as out eqn:Ho.
    clear Ho.
    destruct Hout as
      [ Hdec
      | name Hdec Hbase
      | name Hdec Hbase Hext
      | name e Hacc Hstat
      | name size Hacc Hstat Hrange
      | name size h Hacc Hstat Hrange Hne Hm
      | name size h m1 m2 Hacc Hstat Hrange Hm Hu
      | name size h m1 m2 Hacc Hstat Hrange Hm Hu ];
      cbn [snd] in Hin; try (by destruct Hin);
      exists name; (split; [done|]);
      repeat (destruct Hin as [<-|Hin]; [by split|]); by destruct Hin. }
  destruct (accepted_name_shape raw name Hacc) as (Hns & Hn0 & Hn1 & Hn2).
  destruct Hacc as (Hdec & Hbase & Hext).
  apply allowed_split in Hext as [Hv | Hi].
  - exists name, VIDEOS_DIR. repeat split; try done.
    + left. split; [done|]. by apply video_extensions_iff.
    + by rewrite Hop, videoPath_video.
  - exists name, PICTURES_DIR. repeat split; try done.
    + right. split; [done|]. by apply image_extensions_iff.
    + by rewrite Hop, videoPath_image.
Qed.

End Resolution.

Section Heads.

Context `{Platform}.
Implicit Types (fs : filesystem).

Lemma getContentType_allowed name :
  toLowerCase (path.extname name) ∈ ALLOWED_EXTENSIONS ->
  let ext := toLowerCase (path.extname name) in
  let ct := getContentType name in
  ext = ".mp4" /\ ct = "video/mp4" /\ ext ∈ VIDEO_EXTENSIONS
  \/ ext = ".webm" /\ ct = "video/webm" /\ ext ∈ VIDEO_EXTENSIONS
  \/ (ext = ".jpg" \/ ext = ".jpeg") /\ ct = "image/jpeg"
     /\ ext ∈ IMAGE_EXTENSIONS.
Proof.
  intros Hext ext ct. subst ext ct. unfold getContentType.
  apply allowed_iff in Hext. simpl in Hext.
  destruct Hext as [He|[He|[He|[He|[]]]]]; rewrite <- He.
  - left. split; [done|]. split; [done|].
    apply video_extensions_iff. simpl. auto.
  - right. left. split; [done|]. split; [done|].
    apply video_extensions_iff. simpl. auto.
  - right. right. split; [by left|]. split; [done|].
    apply image_extensions_iff. simpl. auto.
  - right. right. split; [by right|]. split; [done|].
    apply image_extensions_iff. simpl. auto.
Qed.

Lemma partial_head_fields name s e size :
  get_header "Content-Range" (partial_head name s e size)
  = Some (HStr ("bytes " +:+ number_to_string s +:+ "-"
                +:+ number_to_string e +:+ "/" +:+ number_to_string size))
  /\ get_header "Accept-Ranges" (partial_head name s e size)
     = Some (HStr "bytes")
  /\ get_header "Content-Length" (partial_head name s e size)
     = Some (HNum (e - s + 1))
  /\ get_header "Content-Type" (partial_head name s e size)
     = Some (HStr (getContentType name)).
Proof. repeat split. Qed.

Lemma full_head_fields name size :
  get_header "Content-Range" (full_head name size) = None
  /\ get_header "Accept-Ranges" (full_head name size) = None
  /\ get_header "Content-Length" (full_head name size) = Some (HNum size)
  /\ get_header "Content-Type" (full_head name size)
     = Some (HStr (getContentType name)).
Proof. repeat split. Qed.

(** The 200 and 206 answers, read off the paths of the handler. *)
Lemma served_answer fs raw range r :
  (serve (stream_handler fs (mk_request raw range))).1 = Some r ->
  status r = 200 \/ status r = 206 ->
  exists name size,
    accepted_name raw name
    /\ stat fs (videoPath name) = inr size
    /\ (status r = 200
        /\ r = {| status := 200; headers := full_head name size;
                  body := Stream (piped_bytes fs (videoPath name) None) |}
        /\ (serve (stream_handler fs (mk_request raw range))).2
           = [OpStat (videoPath name);
              OpCreateReadStream (videoPath name) None]
        \/ exists s e,
             status r = 206
             /\ 0 <= s /\ s <= e /\ e < size
             /\ r = {| status := 206; headers := partial_head name s e size;
                       body := Stream (piped_bytes fs (videoPath name)
                                         (Some (s, e))) |}
             /\ (serve (stream_handler fs (mk_request raw range))).2
                = [OpStat (videoPath name);
                   OpCreateReadStream (videoPath name) (Some (s, e))]).
Proof.
  intros Hr Hst.
  pose proof (serve_stream_outcome fs raw range) as Hout.
  remember (serve (stream_handler fs (mk_request raw range))) as out eqn:Ho.
  clear Ho.
  destruct Hout as
    [ Hdec
    | name Hdec Hbase
    | name Hdec Hbase Hext
    | name e Hacc Hstat
    | name size Hacc Hstat Hrange
    | name size h Hacc Hstat Hrange Hne Hm
    | name size h m1 m2 Hacc Hstat Hrange Hm Hu
    | name size h m1 m2 Hacc Hstat Hrange Hm Hu ];
    cbn [fst snd] in *; simplify_eq; cbn [status send] in Hst;
    try (destruct e; cbn [status send] in Hst); try lia.
  - exists name, size. split; [done|]. split; [done|]. left. done.
  - exists name, size. split; [done|]. split; [done|]. right.
    exists (parseInt m1), (range_end m2 size).
    apply unsatisfiable_false in Hu. pose proof (parseInt_nonneg m1).
    repeat split; try done; lia.
Qed.

(** Every 200 or 206 answer carries the content type of the extension of
    the decoded name, [video/mp4], [video/webm] or [image/jpeg], never the
    default [application/octet-stream]; and the file was looked up in the
    directory of the videos for the two video types, in the directory of
    the pictures for the image type. *)
Theorem answers_content_type fs raw range r :
  (serve (stream_handler fs (mk_request raw range))).1 = Some r ->
  status r = 200 \/ status r = 206 ->
  exists name ct root,
    decodeURIComponent raw = Some name
    /\ get_header "Content-Type" (headers r) = Some (HStr ct)
    /\ ct <> "application/octet-stream"
    /\ (toLowerCase (path.extname name) = ".mp4" /\ ct = "video/mp4"
        /\ root = VIDEOS_DIR
        \/ toLowerCase (path.extname name) = ".webm" /\ ct = "video/webm"
           /\ root = VIDEOS_DIR
        \/ (toLowerCase (path.extname name) = ".jpg"
            \/ toLowerCase (path.extname name) = ".jpeg")
           /\ ct = "image/jpeg" /\ root = PICTURES_DIR)
    /\ In (OpStat (path.join root name))
          (serve (stream_handler fs (mk_request raw range))).2.
Proof.
  intros Hr Hst.
  destruct (served_answer fs raw range r Hr Hst)
    as (name & size & Hacc & Hstat & Hcases).
  assert (get_header "Content-Type" (headers r)
          = Some (HStr (getContentType name))
          /\ In (OpStat (videoPath name))
                (serve (stream_handler fs (mk_request raw range))).2)
    as [Hct Hop].
  { destruct Hcases as [(_ & -> & ->) | (s & e & _ & _ & _ & _ & -> & ->)];
      (split; [reflexivity | by left]). }
  destruct Hacc as (Hdec & _ & Hext).
  destruct (getContentType_allowed name Hext)
    as [(He & Hc & Hv) | [(He & Hc & Hv) | (He & Hc & Hi)]].
  - exists name, "video/mp4", VIDEOS_DIR. rewrite <- Hc.
    repeat split; try done.
    + by rewrite Hc.
    + left. by rewrite Hc.
    + by rewrite <- (videoPath_video name Hv).
  - exists name, "video/webm", VIDEOS_DIR. rewrite <- Hc.
    repeat split; try done.
    + by rewrite Hc.
    + right. left. by rewrite Hc.
    + by rewrite <- (videoPath_video name Hv).
  - exists name, "image/jpeg", PICTURES_DIR. rewrite <- Hc.
    repeat split; try done.
    + by rewrite Hc.
    + right. right. by rewrite Hc.
    + by rewrite <- (videoPath_image name Hi).
Qed.

(** For a file that can be read, every 200 or 206 answer is framed
    consistently: [Content-Length] is the number of bytes of the body; a
    200 has no [Content-Range] and its body is the file; a 206 has
    [Accept-Ranges: bytes] and [Content-Range: bytes s-e/N] for offsets
    [0 <= s <= e < N] and its body is the bytes [s] to [e] of the file.
    This holds for every [Range] header, of the simple form or not. *)
Theorem content_length_matches_body fs raw name data range r :
  accepted_name raw name ->
  fs !! videoPath name = Some (File data true) ->
  (serve (stream_handler fs (mk_request raw range))).1 = Some r ->
  status r = 200 \/ status r = 206 ->
  exists bytes,
    body r = Stream bytes
    /\ get_header "Content-Length" (headers r)
       = Some (HNum (Z.of_nat (length bytes)))
    /\ (status r = 200 ->
        bytes = data /\ get_header "Content-Range" (headers r) = None)
    /\ (status r = 206 ->
        exists s e,
          0 <= s /\ s <= e /\ e < file_size data
          /\ get_header "Content-Range" (headers r)
             = Some (HStr ("bytes " +:+ number_to_string s +:+ "-"
                           +:+ number_to_string e +:+ "/"
                           +:+ number_to_string (file_size data)))
          /\ get_header "Accept-Ranges" (headers r) = Some (HStr "bytes")
          /\ bytes = take (Z.to_nat (e - s + 1)) (drop (Z.to_nat s) data)).
Proof.
  intros Hacc Hfile Hr Hst.
  destruct (served_answer fs raw range r Hr Hst)
    as (name' & size & Hacc' & Hstat & Hcases).
  rewrite <- (accepted_name_unique _ _ _ Hacc Hacc') in *. clear Hacc'.
  rewrite (stat_file _ _ _ _ Hfile) in Hstat. simplify_eq.
  destruct Hcases as [(_ & -> & _) | (s & e & _ & Hs & Hse & He & -> & _)];
    cbn [status body headers]; rewrite (piped_file _ _ _ _ Hfile).
  - exists data. repeat split; try done; intros; lia.
  - exists (stream_bytes data (Some (s, e))). split; [done|]. split.
    + destruct (partial_head_fields name s e (file_size data))
        as (_ & _ & -> & _).
      by rewrite stream_bytes_length.
    + split; [intros; lia|]. intros _. exists s, e.
      destruct (partial_head_fields name s e (file_size data))
        as (-> & -> & _ & _).
      repeat split; done.
Qed.

End Heads.

Section ListingAnswers.

Context `{Platform}.
Implicit Types (fs : filesystem).

Lemma root_entries_cases fs dir :
  (exists entries, root_entries fs dir entries)
  \/ (exists e, e <> ENOENT /\ readdir fs dir = inl e).
Proof.
  unfold root_entries. destruct (readdir fs dir) as [e|entries] eqn:Hr.
  - destruct e; [left; exists []; left; by split | right ..];
      eexists; (split; [|reflexivity]); discriminate.
  - left. exists entries. by right.
Qed.

Lemma serve_list_cases fs :
  (exists videoEntries pictureEntries,
     root_entries fs VIDEOS_DIR videoEntries
     /\ root_entries fs PICTURES_DIR pictureEntries
     /\ serve (list_handler fs)
        = (Some {| status := 200; headers := [];
                   body := JsonMedia
                     (sort_names (media_files VIDEO_EXTENSIONS videoEntries))
                     (sort_names (media_files IMAGE_EXTENSIONS pictureEntries)) |},
           [OpReaddir VIDEOS_DIR; OpReaddir PICTURES_DIR]))
  \/ (exists e,
        e <> ENOENT
        /\ (readdir fs VIDEOS_DIR = inl e \/ readdir fs PICTURES_DIR = inl e)
        /\ serve (list_handler fs)
           = (Some {| status := 500; headers := [];
                      body := JsonError "Could not read media folders." |},
              [OpReaddir VIDEOS_DIR; OpReaddir PICTURES_DIR])).
Proof.
  destruct (root_entries_cases fs VIDEOS_DIR) as [[ve Hv] | (e & Hne & He)].
  - destruct (root_entries_cases fs PICTURES_DIR) as [[pe Hp] | (e & Hne & He)].
    + left. exists ve, pe. split; [done|]. split; [done|].
      by apply serve_list_ok.
    + right. exists e. split; [done|]. split; [by right|].
      apply (serve_list_error fs e); [done | by right].
  - right. exists e. split; [done|]. split; [by left|].
    apply (serve_list_error fs e); [done | by left].
Qed.

Lemma media_files_names allowed (exts : list string) entries :
  (forall ext, ext ∈ allowed <-> ext ∈ exts) ->
  media_files allowed entries
  = d_name <$> filter (fun e => d_kind e = RegularFile
                                /\ toLowerCase (path.extname (d_name e)) ∈ exts)
                 entries.
Proof.
  intros Hexts. unfold media_files.
  induction entries as [|e entries IH]; [done|].
  rewrite !filter_cons.
  destruct (decide (isFile e = true)) as [Hf|Hf].
  - assert (d_kind e = RegularFile) as Hk
      by (unfold isFile in Hf; by destruct (d_kind e)).
    rewrite fmap_cons, filter_cons.
    destruct (decide (toLowerCase (path.extname (d_name e)) ∈ allowed))
      as [Hext|Hext].
    + rewrite decide_True by (split; [done | by apply Hexts]).
      rewrite fmap_cons. by f_equal.
    + rewrite decide_False; [done|].
      intros [_ Hext']. by apply Hext, Hexts.
  - rewrite decide_False; [done|].
    intros [Hk _]. apply Hf. unfold isFile. by rewrite Hk.
Qed.

(** Whatever the file system, the listing reads the two media directories,
    once each, and does nothing else to the file system.  Under a total
    and transitive collation order: when each directory is absent or can
    be read the answer is 200 with two ascending lists; the first holds
    the names of the entries of the first directory that are regular files
    and whose extension, in lower case, is [.mp4] or [.webm], the second
    the names of the entries of the second directory that are regular
    files and whose extension, in lower case, is [.jpg] or [.jpeg], each
    name as often as it is listed, an absent directory having no entries;
    and no name is in both lists.  The answer is 500 with the error body
    exactly when a directory cannot be read for another reason than
    absence. *)
Theorem listing_answer fs :
  Total locale_le -> Transitive locale_le ->
  let out := serve (list_handler fs) in
  out.2 = [OpReaddir VIDEOS_DIR; OpReaddir PICTURES_DIR]
  /\ (forall videoEntries pictureEntries,
        root_entries fs VIDEOS_DIR videoEntries ->
        root_entries fs PICTURES_DIR pictureEntries ->
        exists videos pictures,
          out.1 = Some {| status := 200; headers := [];
                          body := JsonMedia videos pictures |}
          /\ StronglySorted locale_le videos
          /\ StronglySorted locale_le pictures
          /\ videos
             ≡ₚ d_name <$> filter
                   (fun e => d_kind e = RegularFile
                             /\ toLowerCase (path.extname (d_name e))
                                ∈ [".mp4"; ".webm"])
                   videoEntries
          /\ pictures
             ≡ₚ d_name <$> filter
                   (fun e => d_kind e = RegularFile
                             /\ toLowerCase (path.extname (d_name e))
                                ∈ [".jpg"; ".jpeg"])
                   pictureEntries
          /\ forall name, name ∈ videos -> name ∉ pictures)
  /\ ((exists e, e <> ENOENT
                 /\ (readdir fs VIDEOS_DIR = inl e
                     \/ readdir fs PICTURES_DIR = inl e))
      <-> out.1 = Some {| status := 500; headers := [];
                          body := JsonError "Could not read media folders." |}).
Proof.
  intros Htotal Htrans out. split; [|split].
  - unfold out.
    by destruct (serve_list_cases fs)
      as [(ve & pe & _ & _ & ->) | (e & _ & _ & ->)].
  - intros ve pe Hv Hp.
    exists (sort_names (media_files VIDEO_EXTENSIONS ve)),
           (sort_names (media_files IMAGE_EXTENSIONS pe)).
    split; [unfold out; by rewrite (serve_list_ok fs ve pe Hv Hp)|].
    split; [apply sort_names_sorted|]. split; [apply sort_names_sorted|].
    split; [|split].
    + rewrite sort_names_perm.
      rewrite (media_files_names VIDEO_EXTENSIONS [".mp4"; ".webm"]); [done|].
      intros ext. rewrite video_extensions_iff. symmetry.
      apply list_elem_of_In.
    + rewrite sort_names_perm.
      rewrite (media_files_names IMAGE_EXTENSIONS [".jpg"; ".jpeg"]); [done|].
      intros ext. rewrite image_extensions_iff. symmetry.
      apply list_elem_of_In.
    + intros name Hin Hin'.
      apply elem_of_sorted_media in Hin as (e & _ & _ & _ & Hve).
      apply elem_of_sorted_media in Hin' as (e' & _ & _ & _ & Hie).
      by eapply extension_sets_disjoint.
  - split.
    + intros (e & Hne & He). unfold out.
      by rewrite (serve_list_error fs e Hne He).
    + unfold out.
      destruct (serve_list_cases fs)
        as [(ve & pe & _ & _ & ->) | (e & Hne & He & ->)];
        [intros [=] | intros _; by exists e].
Qed.

(** A name of the listing, asked from the stream endpoint.  For a 200
    listing and a name of its first (second) list that holds no slash and
    that the URI decoder leaves as it is: the stream request for the name
    is never refused with 400 or 415, it starts with the [stat] of that
    name in the directory of the videos (pictures), and when the file is
    there and can be read, the request without [Range] header is answered
    200 with the content of the file and a video (image) content type. *)
Theorem listed_name_streams fs videos pictures name root :
  (serve (list_handler fs)).1
  = Some {| status := 200; headers := []; body := JsonMedia videos pictures |} ->
  name ∈ videos /\ root = VIDEOS_DIR \/ name ∈ pictures /\ root = PICTURES_DIR ->
  no_slash (list_ascii_of_string name) = true ->
  decodeURIComponent name = Some name ->
  (forall range,
     exists r t,
       serve (stream_handler fs (mk_request name range))
       = (Some r, OpStat (path.join root name) :: t)
       /\ status r <> 400 /\ status r <> 415)
  /\ (forall data,
        fs !! path.join root name = Some (File data true) ->
        exists ct,
          serve (stream_handler fs (mk_request name None))
          = (Some {| status := 200;
                     headers := [ ("Content-Length", HNum (file_size data));
                                  ("Content-Type", HStr ct) ];
                     body := Stream data |},
             [ OpStat (path.join root name);
               OpCreateReadStream (path.join root name) None ])
          /\ (root = VIDEOS_DIR /\ In ct ["video/mp4"; "video/webm"]
              \/ root = PICTURES_DIR /\ ct = "image/jpeg")).
Proof.
  intros Hlist Hname Hns Hdec.
  assert (toLowerCase (path.extname name) ∈ VIDEO_EXTENSIONS
          /\ root = VIDEOS_DIR
          \/ toLowerCase (path.extname name) ∈ IMAGE_EXTENSIONS
             /\ root = PICTURES_DIR) as Hext.
  { destruct (serve_list_cases fs)
      as [(ve & pe & _ & _ & Hs) | (e & _ & _ & Hs)];
      rewrite Hs in Hlist; cbn [fst] in Hlist; [|discriminate Hlist].
    injection Hlist as <- <-.
    destruct Hname as [[Hin ->] | [Hin ->]];
      apply elem_of_sorted_media in Hin as (e & _ & _ & _ & He); auto. }
  assert (accepted_name name name) as Hacc.
  { split; [done|]. split; [by apply basename_keeps_name|].
    apply allowed_split. destruct Hext as [[? _] | [? _]]; auto. }
  assert (videoPath name = path.join root name) as Hpath.
  { destruct Hext as [[Hv ->] | [Hi ->]];
      [by apply videoPath_video | by apply videoPath_image]. }
  split.
  - intros range.
    pose proof (serve_stream_outcome fs name range) as Hout.
    remember (serve (stream_handler fs (mk_request name range))) as out eqn:Ho.
    clear Ho. rewrite <- Hpath.
    destruct Hout as
      [ Hdec'
      | name' Hdec' Hbase
      | name' Hdec' Hbase Hext'
      | name' e Hacc' Hstat
      | name' size Hacc' Hstat Hrange
      | name' size h Hacc' Hstat Hrange Hne Hm
      | name' size h m1 m2 Hacc' Hstat Hrange Hm Hu
      | name' size h m1 m2 Hacc' Hstat Hrange Hm Hu ];
      try (destruct Hacc as (Hd & Hb & He); congruence);
      rewrite <- (accepted_name_unique _ _ _ Hacc Hacc');
      eexists _, _; (split; [reflexivity|]);
      try destruct e; cbn [status send]; lia.
  - intros data Hfile. rewrite <- Hpath in *.
    exists (getContentType name). split.
    + rewrite (serve_no_range fs (mk_request name None) name (file_size data)
                 Hacc (stat_file _ _ _ _ Hfile)) by (by left).
      by rewrite (piped_file _ _ _ _ Hfile).
    + destruct Hacc as (_ & _ & Hallowed).
      destruct (getContentType_allowed name Hallowed)
        as [(He & Hc & Hv) | [(He & Hc & Hv) | (He & Hc & Hi)]];
        destruct Hext as [[Hv' ->] | [Hi' ->]];
        try (exfalso; by eapply extension_sets_disjoint).
      * left. split; [done|]. rewrite Hc. simpl. auto.
      * left. split; [done|]. rewrite Hc. simpl. auto.
      * right. by split.
Qed.

End ListingAnswers.

Lemma stream_paths_contained_witness :
  exists name root,
    percent_decode "My%20Clip.webm" = Some name
    /\ no_slash (list_ascii_of_string name) = true
    /\ name <> "" /\ name <> "." /\ name <> ".."
    /\ (root = VIDEOS_DIR (H := demo_platform)
        /\ In (toLowerCase (path.extname name)) [".mp4"; ".webm"]
        \/ root = PICTURES_DIR (H := demo_platform)
           /\ In (toLowerCase (path.extname name)) [".jpg"; ".jpeg"])
    /\ op_path (OpStat "/srv/videos/My Clip.webm") = path.join root name
    /\ (forall p, OpStat "/srv/videos/My Clip.webm" <> OpReaddir p).
Proof.
  apply (stream_paths_contained (H := demo_platform) demo_fs
           "My%20Clip.webm" None (OpStat "/srv/videos/My Clip.webm")).
  vm_compute. auto.
Defined.

Lemma answers_content_type_witness :
  exists name ct root,
    percent_decode "a.mp4" = Some name
    /\ get_header "Content-Type"
         [ ("Content-Range", HStr "bytes 1-3/5");
           ("Accept-Ranges", HStr "bytes");
           ("Content-Length", HNum 3);
           ("Content-Type", HStr "video/mp4") ] = Some (HStr ct)
    /\ ct <> "application/octet-stream"
    /\ (toLowerCase (path.extname name) = ".mp4" /\ ct = "video/mp4"
        /\ root = VIDEOS_DIR (H := demo_platform)
        \/ toLowerCase (path.extname name) = ".webm" /\ ct = "video/webm"
           /\ root = VIDEOS_DIR (H := demo_platform)
        \/ (toLowerCase (path.extname name) = ".jpg"
            \/ toLowerCase (path.extname name) = ".jpeg")
           /\ ct = "image/jpeg" /\ root = PICTURES_DIR (H := demo_platform))
    /\ In (OpStat (path.join root name))
          (serve (stream_handler (H := demo_platform) demo_fs
                    (mk_request "a.mp4" (Some "bytes=1-3")))).2.
Proof.
  apply (answers_content_type (H := demo_platform) demo_fs "a.mp4"
           (Some "bytes=1-3")
           {| status := 206;
              headers := [ ("Content-Range", HStr "bytes 1-3/5");
                           ("Accept-Ranges", HStr "bytes");
                           ("Content-Length", HNum 3);
                           ("Content-Type", HStr "video/mp4") ];
              body := Stream [Byte.x62; Byte.x63; Byte.x64] |}).
  - vm_compute. reflexivity.
  - right. reflexivity.
Defined.

Lemma content_length_matches_body_witness :
  exists bytes,
    Stream [Byte.x64; Byte.x65] = Stream bytes
    /\ get_header "Content-Length"
         [ ("Content-Range", HStr "bytes 3-4/5");
           ("Accept-Ranges", HStr "bytes");
           ("Content-Length", HNum 2);
           ("Content-Type", HStr "video/mp4") ]
       = Some (HNum (Z.of_nat (length bytes)))
    /\ (206 = 200 ->
        bytes = demo_data
        /\ get_header "Content-Range"
             [ ("Content-Range", HStr "bytes 3-4/5");
               ("Accept-Ranges", HStr "bytes");
               ("Content-Length", HNum 2);
               ("Content-Type", HStr "video/mp4") ] = None)
    /\ (206 = 206 ->
        exists s e,
          0 <= s /\ s <= e /\ e < file_size demo_data
          /\ get_header "Content-Range"
               [ ("Content-Range", HStr "bytes 3-4/5");
                 ("Accept-Ranges", HStr "bytes");
                 ("Content-Length", HNum 2);
                 ("Content-Type", HStr "video/mp4") ]
             = Some (HStr ("bytes " +:+ number_to_string s +:+ "-"
                           +:+ number_to_string e +:+ "/"
                           +:+ number_to_string (file_size demo_data)))
          /\ get_header "Accept-Ranges"
               [ ("Content-Range", HStr "bytes 3-4/5");
                 ("Accept-Ranges", HStr "bytes");
                 ("Content-Length", HNum 2);
                 ("Content-Type", HStr "video/mp4") ] = Some (HStr "bytes")
          /\ bytes = take (Z.to_nat (e - s + 1)) (drop (Z.to_nat s) demo_data)).
Proof.
  apply (content_length_matches_body (H := demo_platform) demo_fs
           "a.mp4" "a.mp4" demo_data (Some "x-bytes=3-;q")
           {| status := 206;
              headers := [ ("Content-Range", HStr "bytes 3-4/5");
                           ("Accept-Ranges", HStr "bytes");
                           ("Content-Length", HNum 2);
                           ("Content-Type", HStr "video/mp4") ];
              body := Stream [Byte.x64; Byte.x65] |}).
  - apply demo_accepted; vm_compute; auto.
  - vm_compute. reflexivity.
  - vm_compute. reflexivity.
  - right. reflexivity.
Defined.

Lemma listing_answer_witness :
  serve (list_handler (H := demo_platform) demo_library)
  = (Some {| status := 200; headers := [];
             body := JsonMedia ["a.mp4"; "clip.webm"] ["a.jpeg"; "b.JPG"] |},
     [OpReaddir "/srv/videos"; OpReaddir "/srv/pictures"])
  /\ exists videos pictures,
       (serve (list_handler (H := demo_platform) demo_library)).1
       = Some {| status := 200; headers := [];
                 body := JsonMedia videos pictures |}
       /\ StronglySorted (locale_le (H := demo_platform)) videos
       /\ StronglySorted (locale_le (H := demo_platform)) pictures
       /\ videos ≡ₚ ["clip.webm"; "a.mp4"]
       /\ pictures ≡ₚ ["b.JPG"; "a.jpeg"]
       /\ forall name, name ∈ videos -> name ∉ pictures.
Proof.
  split; [vm_compute; reflexivity|].
  destruct (listing_answer (H := demo_platform) demo_library
              demo_locale_total demo_locale_trans) as (_ & Hok & _).
  destruct (Hok demo_videos demo_pictures)
    as (videos & pictures & Hout & Hsv & Hsp & Hv & Hp & Hdis).
  - right. vm_compute. reflexivity.
  - right. vm_compute. reflexivity.
  - exists videos, pictures. split; [exact Hout|].
    split; [exact Hsv|]. split; [exact Hsp|].
    split; [exact Hv|]. split; [exact Hp|]. exact Hdis.
Defined.

Lemma listed_name_streams_witness :
  (forall range,
     exists r t,
       serve (stream_handler (H := demo_platform) demo_library
                (mk_request "a.mp4" range))
       = (Some r, OpStat (path.join "/srv/videos" "a.mp4") :: t)
       /\ status r <> 400 /\ status r <> 415)
  /\ (forall data,
        demo_library !! path.join "/srv/videos" "a.mp4"
        = Some (File data true) ->
        exists ct,
          serve (stream_handler (H := demo_platform) demo_library
                   (mk_request "a.mp4" None))
          = (Some {| status := 200;
                     headers := [ ("Content-Length", HNum (file_size data));
                                  ("Content-Type", HStr ct) ];
                     body := Stream data |},
             [ OpStat (path.join "/srv/videos" "a.mp4");
               OpCreateReadStream (path.join "/srv/videos" "a.mp4") None ])
          /\ ("/srv/videos" = VIDEOS_DIR (H := demo_platform)
              /\ In ct ["video/mp4"; "video/webm"]
              \/ "/srv/videos" = PICTURES_DIR (H := demo_platform)
                 /\ ct = "image/jpeg")).
Proof.
  apply (listed_name_streams (H := demo_platform) demo_library
           ["a.mp4"; "clip.webm"] ["a.jpeg"; "b.JPG"] "a.mp4" "/srv/videos").
  - vm_compute. reflexivity.
  - left. split; [|reflexivity]. apply list_elem_of_In. simpl. auto.
  - vm_compute. reflexivity.
  - vm_compute. reflexivity.
Defined.

(** ** [extOf] on examples *)

Example extOf_plain : extOf "movie.mp4" = "MP4".
Proof. reflexivity. Qed.
Example extOf_none : extOf "README" = "".
Proof. reflexivity. Qed.
Example extOf_hidden : extOf ".mp4" = "MP4".
Proof. reflexivity. Qed.
Example extOf_trailing : extOf "a." = "".
Proof. reflexivity. Qed.
Example extOf_two : extOf "a.tar.webm" = "WEBM".
Proof. reflexivity. Qed.

(** ** Strings as lists of characters *)

Lemma string_of_list_ascii_app l1 l2 :
  string_of_list_ascii (l1 ++ l2)
  = string_of_list_ascii l1 +:+ string_of_list_ascii l2.
Proof. induction l1 as [|c l1 IH]; [done|]. simpl. by rewrite IH. Qed.

Lemma length_string_of_list l :
  String.length (string_of_list_ascii l) = length l.
Proof. induction l as [|c l IH]; [done|]. simpl. by rewrite IH. Qed.

Lemma substring_skip pre s n :
  String.substring (String.length pre) n (pre +:+ s) = String.substring 0 n s.
Proof. induction pre as [|c pre IH]; [done|]. simpl. exact IH. Qed.

(** The last dot of a sequence of characters, when there is one. *)
Lemma last_dot_split chars :
  no_dot chars = true
  \/ exists pre rest, chars = pre ++ "."%char :: rest /\ no_dot rest = true.
Proof.
  induction chars as [|c chars IH]; [by left|].
  destruct IH as [Hnd | (pre & rest & -> & Hrest)].
  - destruct (Chars.is_dot c) eqn:Hc.
    + right. exists [], chars. split; [|done].
      unfold Chars.is_dot, Chars.code in Hc. apply Z.eqb_eq in Hc.
      assert (N_of_ascii c = 46%N) as Hn by lia.
      apply (f_equal ascii_of_N) in Hn. rewrite ascii_N_embedding in Hn.
      by rewrite Hn.
    + left. unfold no_dot in *. simpl. by rewrite Hc.
  - right. by exists (c :: pre), rest.
Qed.

(** ** [extOf] *)

Lemma lastIndexOf_no_dot s i last :
  no_dot (list_ascii_of_string s) = true ->
  lastIndexOf_dot_from s i last = last.
Proof.
  revert i last. induction s as [|c s IH]; intros i last Hnd; [done|].
  unfold no_dot in Hnd. simpl in Hnd. apply andb_true_iff in Hnd as [Hc Hnd].
  simpl. apply negb_true_iff in Hc. rewrite Hc. by apply IH.
Qed.

Lemma lastIndexOf_last_dot pre rest i last :
  no_dot (list_ascii_of_string rest) = true ->
  lastIndexOf_dot_from (pre +:+ String "." rest) i last
  = i + Z.of_nat (String.length pre).
Proof.
  revert i last. induction pre as [|c pre IH]; intros i last Hnd.
  - rewrite app_empty_l. simpl.
    change (Chars.is_dot ".") with true. cbv iota.
    rewrite lastIndexOf_no_dot by done. lia.
  - rewrite app_cons. simpl lastIndexOf_dot_from. rewrite IH by done.
    simpl String.length. lia.
Qed.

Lemma length_app_s (s t : string) :
  String.length (s +:+ t) = (String.length s + String.length t)%nat.
Proof. induction s as [|c s IH]; [done|]. rewrite app_cons. simpl. by rewrite IH. Qed.

Lemma extOf_last_dot pre rest :
  no_dot (list_ascii_of_string rest) = true ->
  extOf (pre +:+ String "." rest) = toUpperCase rest.
Proof.
  intros Hnd. unfold extOf, lastIndexOf_dot.
  rewrite lastIndexOf_last_dot by done.
  assert ((0 + Z.of_nat (String.length pre) >=? 0) = true) as ->
    by (apply Z.geb_le; lia).
  f_equal. unfold slice, str_length. rewrite length_app_s. simpl String.length.
  replace (Z.to_nat (0 + Z.of_nat (String.length pre) + 1))
    with (String.length (pre +:+ ".")) by (rewrite length_app_s; simpl; lia).
  replace (pre +:+ String "." rest) with ((pre +:+ ".") +:+ rest)
    by (by rewrite app_assoc_s).
  rewrite substring_skip.
  replace (Z.to_nat _) with (String.length rest) by lia.
  apply substring_all.
Qed.

(** ** [path.extname] of a name without slash *)

Lemma no_slash_cons c chars :
  no_slash (c :: chars) = true
  <-> Chars.is_slash c = false /\ no_slash chars = true.
Proof.
  unfold no_slash. simpl. rewrite andb_true_iff, negb_true_iff. done.
Qed.

Lemma no_dot_cons c chars :
  no_dot (c :: chars) = true
  <-> Chars.is_dot c = false /\ no_dot chars = true.
Proof.
  unfold no_dot. simpl. rewrite andb_true_iff, negb_true_iff. done.
Qed.

Lemma no_slash_app l1 l2 :
  no_slash (l1 ++ l2) = no_slash l1 && no_slash l2.
Proof. unfold no_slash. apply forallb_app. Qed.

Lemma no_dot_rev chars : no_dot (rev chars) = no_dot chars.
Proof.
  unfold no_dot. induction chars as [|c chars IH]; [done|].
  simpl. rewrite forallb_app, IH. simpl. rewrite andb_true_r. apply andb_comm.
Qed.

(** Without a dot the start of the extension stays unset. *)
Lemma extname_loop_no_dot chars i st :
  no_slash chars = true -> no_dot chars = true ->
  path.ex_startDot st = -1 ->
  path.ex_startDot (path.extname_loop chars i st) = -1.
Proof.
  revert i st. induction chars as [|c chars IH]; intros i st Hns Hnd Hsd;
    [done|].
  apply no_slash_cons in Hns as [Hc Hns]. apply no_dot_cons in Hnd as [Hd Hnd].
  simpl. rewrite Hc, Hd.
  destruct (path.ex_end st =? -1); cbn [path.ex_startDot];
    rewrite Hsd; simpl; by apply IH.
Qed.

(** Once the dot and the end are known they are kept. *)
Lemma extname_loop_keeps chars i st :
  no_slash chars = true ->
  path.ex_startDot st <> -1 -> path.ex_end st <> -1 ->
  let r := path.extname_loop chars i st in
  path.ex_startDot r = path.ex_startDot st
  /\ path.ex_end r = path.ex_end st
  /\ path.ex_startPart r = path.ex_startPart st.
Proof.
  revert i st. induction chars as [|c chars IH]; intros i st Hns Hsd He;
    [done|].
  apply no_slash_cons in Hns as [Hc Hns].
  simpl. rewrite Hc.
  apply Z.eqb_neq in He as He'. rewrite He'.
  apply Z.eqb_neq in Hsd as Hsd'. rewrite Hsd'. cbn [negb].
  destruct (Chars.is_dot c); [destruct (negb (path.ex_preDotState st =? 1))|];
    cbv zeta;
    match goal with
    | |- context [path.extname_loop chars (i - 1) ?s] =>
        destruct (IH (i - 1) s Hns) as (H1 & H2 & H3); [done..|];
        cbv zeta in H1, H2, H3; by rewrite H1, H2, H3
    end.
Qed.

(** Up to the first dot met from the end, then the rest of the name. *)
Lemma extname_loop_first_dot tail head i st :
  no_slash (tail ++ "."%char :: head) = true -> no_dot tail = true ->
  i = Z.of_nat (length (tail ++ "."%char :: head)) - 1 ->
  path.ex_startDot st = -1 ->
  let r := path.extname_loop (tail ++ "."%char :: head) i st in
  path.ex_startDot r = Z.of_nat (length head)
  /\ path.ex_end r = (if path.ex_end st =? -1 then i + 1 else path.ex_end st)
  /\ path.ex_startPart r = path.ex_startPart st.
Proof.
  revert i st. induction tail as [|c tail IH]; intros i st Hns Hnd Hi Hsd.
  - simpl app in *. apply no_slash_cons in Hns as [_ Hns].
    simpl in Hi. simpl.
    destruct (path.ex_end st =? -1) eqn:He; cbn [path.ex_startDot];
      rewrite Hsd; simpl; [|apply Z.eqb_neq in He];
      match goal with
      | |- context [path.extname_loop head (i - 1) ?s] =>
          destruct (extname_loop_keeps head (i - 1) s Hns) as (H1 & H2 & H3);
          [cbn; lia | cbn; (lia || done) |];
          cbv zeta in H1, H2, H3; cbn in H1, H2, H3; rewrite H1, H2, H3
      end; repeat split; lia.
  - simpl app in *. apply no_slash_cons in Hns as [Hc Hns].
    apply no_dot_cons in Hnd as [Hd Hnd]. simpl in Hi.
    simpl. rewrite Hc, Hd.
    destruct (path.ex_end st =? -1) eqn:He; cbn [path.ex_startDot];
      rewrite Hsd; simpl;
      match goal with
      | |- context [path.extname_loop _ (i - 1) ?s] =>
          destruct (IH (i - 1) s Hns Hnd) as (H1 & H2 & H3);
          [lia | done |];
          cbv zeta in H1, H2, H3; cbn in H2, H3; rewrite H1, H2, H3
      end.
    + replace (i + 1 =? -1) with false by lia. done.
    + by rewrite He.
Qed.

Lemma list_ascii_app s t :
  list_ascii_of_string (s +:+ t)
  = list_ascii_of_string s ++ list_ascii_of_string t.
Proof. induction s as [|c s IH]; [done|]. rewrite app_cons. simpl. by rewrite IH. Qed.

(** For a name without slash, [path.extname] is empty or is what starts
    at the last dot. *)
Lemma extname_no_slash name :
  no_slash (list_ascii_of_string name) = true ->
  path.extname name = ""
  \/ exists pre rest,
       name = pre +:+ String "." rest
       /\ no_dot (list_ascii_of_string rest) = true
       /\ path.extname name = String "." rest.
Proof.
  intros Hns.
  destruct (last_dot_split (list_ascii_of_string name))
    as [Hnd | (pre & rest & Hchars & Hrest)].
  - left. unfold path.extname.
    rewrite extname_loop_no_dot;
      [done | by rewrite no_slash_rev | by rewrite no_dot_rev | done].
  - assert (name = string_of_list_ascii pre
                   +:+ String "." (string_of_list_ascii rest)) as Hname.
    { rewrite <- (string_of_list_ascii_of_string name), Hchars.
      by rewrite string_of_list_ascii_app. }
    destruct (path.extname name) as [|c e] eqn:Hext; [by left|]. right.
    exists (string_of_list_ascii pre), (string_of_list_ascii rest).
    split; [done|].
    split; [by rewrite list_ascii_of_string_of_list_ascii|].
    rewrite <- Hext. unfold path.extname in *.
    assert (rev (list_ascii_of_string name)
            = rev rest ++ "."%char :: rev pre) as Hrev.
    { rewrite Hchars, rev_app_distr. simpl. by rewrite <- app_assoc. }
    rewrite Hrev in *.
    destruct (extname_loop_first_dot (rev rest) (rev pre)
                (str_length name - 1)
                {| path.ex_startDot := -1; path.ex_startPart := 0;
                   path.ex_end := -1; path.ex_matchedSlash := true;
                   path.ex_preDotState := 0 |}) as (H1 & H2 & H3).
    { rewrite <- Hrev. by rewrite no_slash_rev. }
    { by rewrite no_dot_rev. }
    { rewrite <- Hrev, length_rev, length_list_ascii. done. }
    { done. }
    cbn [path.ex_end path.ex_startPart] in H2, H3. simpl in H2.
    set (r := path.extname_loop _ _ _) in *.
    rewrite H1, H2 in *. rewrite length_rev in *.
    destruct (_ || _); [discriminate Hext|].
    unfold slice, str_length.
    replace (Z.to_nat (Z.of_nat (length pre)))
      with (String.length (string_of_list_ascii pre))
      by (rewrite length_string_of_list; lia).
    rewrite Hname at 2. rewrite substring_skip.
    replace (Z.to_nat _)
      with (String.length (String "." (string_of_list_ascii rest))).
    + apply substring_all.
    + rewrite Hname, length_app_s. simpl String.length.
      rewrite !length_string_of_list. lia.
Qed.

(** ** The badge of a listed name *)

Lemma char_upper_lower c : char_to_upper (Chars.to_lower c) = char_to_upper c.
Proof. destruct c as [[] [] [] [] [] [] [] []]; reflexivity. Qed.

Lemma toUpperCase_toLowerCase s : toUpperCase (toLowerCase s) = toUpperCase s.
Proof.
  induction s as [|c s IH]; [done|]. simpl. by rewrite char_upper_lower, IH.
Qed.

Lemma extOf_of_extension name ext :
  no_slash (list_ascii_of_string name) = true ->
  toLowerCase (path.extname name) = String "." ext ->
  extOf name = toUpperCase ext.
Proof.
  intros Hns Hext.
  destruct (extname_no_slash name Hns) as [He | (pre & rest & Hname & Hnd & He)].
  - rewrite He in Hext. discriminate Hext.
  - rewrite He in Hext. simpl in Hext. injection Hext as <-.
    rewrite Hname, extOf_last_dot by done.
    by rewrite toUpperCase_toLowerCase.
Qed.

Section Badges.

Context `{Platform}.

(** The badge that [renderList] puts beside a name the server listed.  For
    a 200 listing and a name without slash: [extOf] of a name of the first
    list is [MP4] or [WEBM], of a name of the second list [JPG] or
    [JPEG]: the upper-cased extension by which the server classified the
    file. *)
Theorem badge_of_listed_name (fs : filesystem) videos pictures name :
  (serve (list_handler fs)).1
  = Some {| status := 200; headers := []; body := JsonMedia videos pictures |} ->
  no_slash (list_ascii_of_string name) = true ->
  (name ∈ videos ->
   String "." (extOf name) = toUpperCase (path.extname name)
   /\ In (extOf name) ["MP4"; "WEBM"])
  /\ (name ∈ pictures ->
      String "." (extOf name) = toUpperCase (path.extname name)
      /\ In (extOf name) ["JPG"; "JPEG"]).
Proof.
  intros Hlist Hns.
  destruct (serve_list_cases fs)
    as [(ve & pe & _ & _ & Hs) | (e & _ & _ & Hs)];
    rewrite Hs in Hlist; cbn [fst] in Hlist; [|discriminate Hlist].
  injection Hlist as <- <-.
  split; intros Hin;
    apply elem_of_sorted_media in Hin as (e & _ & _ & _ & He).
  - apply video_extensions_iff in He. simpl in He.
    destruct He as [He | [He | []]]; symmetry in He;
      pose proof (extOf_of_extension name _ Hns He) as Hb;
      (split; [|rewrite Hb; simpl; auto]);
      rewrite Hb, <- (toUpperCase_toLowerCase (path.extname name)), He;
      reflexivity.
  - apply image_extensions_iff in He. simpl in He.
    destruct He as [He | [He | []]]; symmetry in He;
      pose proof (extOf_of_extension name _ Hns He) as Hb;
      (split; [|rewrite Hb; simpl; auto]);
      rewrite Hb, <- (toUpperCase_toLowerCase (path.extname name)), He;
      reflexivity.
Qed.

End Badges.

Lemma badge_of_listed_name_witness :
  ("clip.webm" ∈ ["a.mp4"; "clip.webm"] ->
   String "." (extOf "clip.webm") = toUpperCase (path.extname "clip.webm")
   /\ In (extOf "clip.webm") ["MP4"; "WEBM"])
  /\ ("clip.webm" ∈ ["a.jpeg"; "b.JPG"] ->
      String "." (extOf "clip.webm") = toUpperCase (path.extname "clip.webm")
      /\ In (extOf "clip.webm") ["JPG"; "JPEG"]).
Proof.
  apply (badge_of_listed_name (H := demo_platform) demo_library
           ["a.mp4"; "clip.webm"] ["a.jpeg"; "b.JPG"] "clip.webm").
  - vm_compute. reflexivity.
  - vm_compute. reflexivity.
Defined.

(** ** The names with an allowed extension *)

Lemma extname_loop_predot_set chars i st :
  no_slash chars = true ->
  path.ex_startDot st <> -1 ->
  path.ex_preDotState st = 1 \/ path.ex_preDotState st = -1 ->
  let r := path.extname_loop chars i st in
  path.ex_preDotState r = 1 \/ path.ex_preDotState r = -1.
Proof.
  revert i st. induction chars as [|c chars IH]; intros i st Hns Hsd Hp;
    [done|].
  apply no_slash_cons in Hns as [Hc Hns].
  simpl. rewrite Hc.
  apply Z.eqb_neq in Hsd as Hsd'.
  destruct (path.ex_end st =? -1); cbn [path.ex_startDot path.ex_preDotState];
    rewrite Hsd'; cbn [negb];
    (destruct (Chars.is_dot c);
     [destruct (negb (path.ex_preDotState st =? 1))|]);
    apply IH; cbn; auto.
Qed.

Lemma extname_loop_predot_nonempty chars i st :
  chars <> [] -> no_slash chars = true ->
  path.ex_startDot st <> -1 ->
  let r := path.extname_loop chars i st in
  path.ex_preDotState r = 1 \/ path.ex_preDotState r = -1.
Proof.
  destruct chars as [|c chars]; [done|]. intros _ Hns Hsd.
  apply no_slash_cons in Hns as [Hc Hns].
  simpl. rewrite Hc.
  apply Z.eqb_neq in Hsd as Hsd'.
  destruct (path.ex_end st =? -1); cbn [path.ex_startDot path.ex_preDotState];
    rewrite Hsd'; cbn [negb];
    (destruct (Chars.is_dot c);
     [destruct (negb (path.ex_preDotState st =? 1)) eqn:Hn|]);
    apply extname_loop_predot_set; cbn; auto;
    apply negb_false_iff, Z.eqb_eq in Hn; auto.
Qed.

Lemma extname_loop_predot_tail tail i st :
  no_slash tail = true -> no_dot tail = true ->
  path.ex_startDot st = -1 ->
  path.ex_preDotState
    (path.extname_loop (tail ++ ["."%char]) i st)
  = path.ex_preDotState st.
Proof.
  revert i st. induction tail as [|c tail IH]; intros i st Hns Hnd Hsd.
  - simpl. destruct (path.ex_end st =? -1); cbn [path.ex_startDot];
      by rewrite Hsd.
  - apply no_slash_cons in Hns as [Hc Hns].
    apply no_dot_cons in Hnd as [Hd Hnd].
    simpl. rewrite Hc, Hd.
    destruct (path.ex_end st =? -1); cbn [path.ex_startDot];
      rewrite Hsd; simpl; by rewrite IH.
Qed.

(** A name that is nothing but a dot and what follows has no extension. *)
Lemma extname_leading_dot rest :
  no_slash (list_ascii_of_string rest) = true ->
  no_dot (list_ascii_of_string rest) = true ->
  path.extname (String "." rest) = "".
Proof.
  intros Hns Hnd. unfold path.extname.
  change (list_ascii_of_string (String "." rest))
    with ("."%char :: list_ascii_of_string rest).
  simpl rev.
  rewrite extname_loop_predot_tail;
    [|by rewrite no_slash_rev|by rewrite no_dot_rev|done].
  cbn [path.ex_preDotState]. change (0 =? 0) with true.
  by rewrite !orb_true_r.
Qed.

Lemma no_dot_app l1 l2 : no_dot (l1 ++ l2) = no_dot l1 && no_dot l2.
Proof. unfold no_dot. apply forallb_app. Qed.

(** With characters before the dot, the state before the dot is set. *)
Lemma extname_loop_predot tail head i st :
  head <> [] ->
  no_slash (tail ++ "."%char :: head) = true -> no_dot tail = true ->
  i = Z.of_nat (length (tail ++ "."%char :: head)) - 1 ->
  path.ex_startDot st = -1 ->
  let r := path.extname_loop (tail ++ "."%char :: head) i st in
  path.ex_preDotState r = 1 \/ path.ex_preDotState r = -1.
Proof.
  intros Hhead. revert i st.
  induction tail as [|c tail IH]; intros i st Hns Hnd Hi Hsd.
  - simpl app in *. apply no_slash_cons in Hns as [_ Hns].
    simpl in Hi. simpl.
    destruct (path.ex_end st =? -1); cbn [path.ex_startDot];
      rewrite Hsd; simpl;
      apply extname_loop_predot_nonempty; cbn; (done || lia).
  - simpl app in *. apply no_slash_cons in Hns as [Hc Hns].
    apply no_dot_cons in Hnd as [Hd Hnd]. simpl in Hi.
    simpl. rewrite Hc, Hd.
    destruct (path.ex_end st =? -1); cbn [path.ex_startDot];
      rewrite Hsd; simpl; apply IH; (done || lia).
Qed.

Lemma toLowerCase_chars s :
  no_dot (list_ascii_of_string (toLowerCase s))
  = no_dot (list_ascii_of_string s)
  /\ no_slash (list_ascii_of_string (toLowerCase s))
     = no_slash (list_ascii_of_string s).
Proof.
  induction s as [|c s [IH1 IH2]]; [done|].
  unfold no_dot, no_slash in *. simpl. rewrite IH1, IH2.
  split; f_equal; destruct c as [[] [] [] [] [] [] [] []]; reflexivity.
Qed.

(** The extension of [<pre>.<ext>]. *)
Lemma extname_named pre ext :
  pre <> "" -> ext <> "" ->
  no_slash (list_ascii_of_string pre) = true ->
  no_slash (list_ascii_of_string ext) = true ->
  no_dot (list_ascii_of_string ext) = true ->
  path.extname (pre +:+ String "." ext) = String "." ext.
Proof.
  intros Hpre Hext Hnsp Hnse Hnd. unfold path.extname.
  set (name := pre +:+ String "." ext).
  assert (rev (list_ascii_of_string name)
          = rev (list_ascii_of_string ext)
            ++ "."%char :: rev (list_ascii_of_string pre)) as Hrev.
  { unfold name. rewrite list_ascii_app. simpl.
    rewrite rev_app_distr. simpl. by rewrite <- app_assoc. }
  assert (no_slash (rev (list_ascii_of_string name)) = true) as Hns.
  { rewrite no_slash_rev. unfold name. rewrite list_ascii_app, no_slash_app.
    rewrite Hnsp. simpl. exact Hnse. }
  assert (str_length name
          = Z.of_nat (String.length pre) + 1 + Z.of_nat (String.length ext))
    as Hlen.
  { unfold str_length, name. rewrite length_app_s. simpl. lia. }
  assert (str_length name - 1
          = Z.of_nat (length (rev (list_ascii_of_string ext)
                              ++ "."%char :: rev (list_ascii_of_string pre)))
            - 1) as Hi.
  { rewrite <- Hrev, length_rev, length_list_ascii. done. }
  rewrite Hrev in *.
  destruct (extname_loop_first_dot (rev (list_ascii_of_string ext))
              (rev (list_ascii_of_string pre)) (str_length name - 1)
              {| path.ex_startDot := -1; path.ex_startPart := 0;
                 path.ex_end := -1; path.ex_matchedSlash := true;
                 path.ex_preDotState := 0 |}) as (H1 & H2 & H3);
    [done | by rewrite no_dot_rev | done | done |].
  cbn [path.ex_end path.ex_startPart] in H2, H3. simpl in H2.
  pose proof (extname_loop_predot (rev (list_ascii_of_string ext))
                (rev (list_ascii_of_string pre)) (str_length name - 1)
                {| path.ex_startDot := -1; path.ex_startPart := 0;
                   path.ex_end := -1; path.ex_matchedSlash := true;
                   path.ex_preDotState := 0 |}) as Hp.
  cbv zeta in Hp.
  set (r := path.extname_loop _ _ _) in *.
  assert (path.ex_preDotState r = 1 \/ path.ex_preDotState r = -1) as Hp'.
  { apply Hp; [|done|by rewrite no_dot_rev|done|done].
    intros Hnil. apply (f_equal (@length ascii)) in Hnil.
    rewrite length_rev, length_list_ascii in Hnil. by destruct pre. }
  rewrite length_rev, length_list_ascii in H1.
  assert (0 < Z.of_nat (String.length ext)) as Hext'.
  { destruct ext; [done|]. simpl. lia. }
  rewrite H1, H2.
  replace (Z.of_nat (String.length pre) =? -1) with false by lia.
  replace (str_length name - 1 + 1 =? -1) with false by lia.
  replace (path.ex_preDotState r =? 0) with false by lia.
  replace (Z.of_nat (String.length pre) =? str_length name - 1 + 1 - 1)
    with false by lia.
  rewrite andb_false_r. cbn [orb andb].
  unfold slice.
  replace (Z.to_nat (Z.of_nat (String.length pre)))
    with (String.length pre) by lia.
  unfold name at 2. rewrite substring_skip.
  replace (Z.to_nat _) with (String.length (String "." ext))
    by (simpl String.length; lia).
  apply substring_all.
Qed.

Lemma lower_literal_shape ext lit :
  toLowerCase ext = lit ->
  no_dot (list_ascii_of_string lit) = true ->
  no_slash (list_ascii_of_string lit) = true ->
  lit <> "" ->
  ext <> "" /\ no_dot (list_ascii_of_string ext) = true
  /\ no_slash (list_ascii_of_string ext) = true.
Proof.
  intros <- Hnd Hns Hne. destruct (toLowerCase_chars ext) as [H1 H2].
  rewrite H1 in Hnd. rewrite H2 in Hns. repeat split; try done.
  by intros ->.
Qed.

(** Which names have an allowed extension.  A name without slash passes
    the extension check of the stream handler, and the filter of the
    listing, exactly when it reads [<pre>.<ext>] with [<pre>] not empty and
    [<ext>], in lower case, one of [mp4], [webm], [jpg], [jpeg]. *)
Theorem allowed_name_shape name :
  no_slash (list_ascii_of_string name) = true ->
  toLowerCase (path.extname name) ∈ ALLOWED_EXTENSIONS
  <-> exists pre ext,
        name = pre +:+ String "." ext /\ pre <> ""
        /\ In (toLowerCase ext) ["mp4"; "webm"; "jpg"; "jpeg"].
Proof.
  intros Hns. rewrite allowed_iff. split.
  - intros Hin.
    destruct (extname_no_slash name Hns)
      as [He | (pre & rest & Hname & Hnd & He)].
    { rewrite He in Hin. simpl in Hin.
      repeat (destruct Hin as [Hin|Hin]; [discriminate Hin|]). done. }
    exists pre, rest. split; [done|]. split.
    + intros ->. rewrite app_empty_l in Hname. subst name.
      rewrite extname_leading_dot in He; [discriminate He| |done].
      change (list_ascii_of_string (String "." rest))
        with ("."%char :: list_ascii_of_string rest) in Hns.
      by apply no_slash_cons in Hns as [_ Hns].
    + rewrite He in Hin. simpl in Hin. simpl.
      repeat (destruct Hin as [Hin|Hin];
              [injection Hin as Hin; auto|]). done.
  - intros (pre & ext & -> & Hpre & Hin).
    rewrite list_ascii_app, no_slash_app in Hns.
    apply andb_true_iff in Hns as [Hnsp Hnse].
    change (list_ascii_of_string (String "." ext))
      with ("."%char :: list_ascii_of_string ext) in Hnse.
    apply no_slash_cons in Hnse as [_ Hnse].
    assert (ext <> "" /\ no_dot (list_ascii_of_string ext) = true) as [Hne Hnd].
    { simpl in Hin.
      repeat (destruct Hin as [Hin|Hin];
              [destruct (lower_literal_shape ext _ (eq_sym Hin))
                 as (? & ? & _); done|]). done. }
    rewrite extname_named by done. simpl. simpl in Hin.
    repeat (destruct Hin as [Hin|Hin]; [rewrite <- Hin; auto 6|]). done.
Qed.

(** ** Answers that refuse *)

Section Refusals.

Context `{Platform}.

(** An answer other than 200 and 206 sets no header and carries one of six
    fixed texts, whatever the name, the header and the file system:
    neither the requested name nor a path is sent back, and a 416 has no
    [Content-Range]. *)
Theorem refusals_are_fixed (fs : filesystem) raw range r :
  (serve (stream_handler fs (mk_request raw range))).1 = Some r ->
  status r <> 200 -> status r <> 206 ->
  headers r = []
  /\ In (status r, body r)
        [ (400, Text "Invalid file name.");
          (415, Text "Unsupported media type.");
          (404, Text "Not found.");
          (416, Text "Malformed Range header.");
          (416, Text "Requested range not satisfiable.");
          (500, Text "Server error.") ].
Proof.
  intros Hr H200 H206.
  pose proof (serve_stream_outcome fs raw range) as Hout.
  remember (serve (stream_handler fs (mk_request raw range))) as out eqn:Ho.
  clear Ho.
  destruct Hout as
    [ Hdec
    | name Hdec Hbase
    | name Hdec Hbase Hext
    | name e Hacc Hstat
    | name size Hacc Hstat Hrange
    | name size h Hacc Hstat Hrange Hne Hm
    | name size h m1 m2 Hacc Hstat Hrange Hm Hu
    | name size h m1 m2 Hacc Hstat Hrange Hm Hu ];
    cbn [fst] in Hr; simplify_eq; try done;
    try destruct e; cbn; split; try done; tauto.
Qed.

End Refusals.

Lemma refusals_are_fixed_witness :
  headers (send 416 "Requested range not satisfiable.") = []
  /\ In (status (send 416 "Requested range not satisfiable."),
         body (send 416 "Requested range not satisfiable."))
        [ (400, Text "Invalid file name.");
          (415, Text "Unsupported media type.");
          (404, Text "Not found.");
          (416, Text "Malformed Range header.");
          (416, Text "Requested range not satisfiable.");
          (500, Text "Server error.") ].
Proof.
  apply (refusals_are_fixed (H := demo_platform) demo_fs "a.mp4"
           (Some "bytes=2-9")).
  - vm_compute. reflexivity.
  - discriminate.
  - discriminate.
Defined.

Lemma allowed_name_shape_witness :
  toLowerCase (path.extname "My Clip.WebM") ∈ ALLOWED_EXTENSIONS
  <-> exists pre ext,
        "My Clip.WebM" = pre +:+ String "." ext /\ pre <> ""
        /\ In (toLowerCase ext) ["mp4"; "webm"; "jpg"; "jpeg"].
Proof.
  apply (allowed_name_shape "My Clip.WebM"). vm_compute. reflexivity.
Defined.

Lemma item_names_render names asImage emptyText :
  item_names (renderList names asImage emptyText) = names.
Proof.
  destruct names as [|n names]; [done|]. unfold renderList, item_names.
  generalize (n :: names). intros l. induction l as [|x l IH]; [done|].
  cbn. by f_equal.
Qed.

Section Page.

Context `{Platform}.

(** The page after [loadVideos], against this server.  When a media
    directory cannot be read for another reason than absence, the page
    shows the error line and both lists are left empty, without
    placeholder.  Otherwise the buttons of the two lists carry exactly the
    names of the listing, in its order; a list without names holds its
    placeholder instead; the status line reads "No media found." when
    both lists are without names and is hidden otherwise; and, the listed
    names holding no slash, every button of the first list selects the
    video player and has the badge [MP4] or [WEBM], every button of the
    second selects the image viewer and has the badge [JPG] or [JPEG]. *)
Theorem page_after_load (fs : filesystem) (p : page) :
  (forall e,
     e <> ENOENT ->
     readdir fs VIDEOS_DIR = inl e \/ readdir fs PICTURES_DIR = inl e ->
     loaded_page fs p
     = {| status_text := "Could not load videos. Is the server running?";
          status_display := "block";
          videoList := [];
          picturesList := [] |})
  /\ (forall videoEntries pictureEntries,
        root_entries fs VIDEOS_DIR videoEntries ->
        root_entries fs PICTURES_DIR pictureEntries ->
        (forall e, e ∈ videoEntries ++ pictureEntries ->
                   no_slash (list_ascii_of_string (d_name e)) = true) ->
        let videos := sort_names (media_files VIDEO_EXTENSIONS videoEntries) in
        let pictures :=
          sort_names (media_files IMAGE_EXTENSIONS pictureEntries) in
        let q := loaded_page fs p in
        item_names (videoList q) = videos
        /\ item_names (picturesList q) = pictures
        /\ (videos = [] <->
            videoList q
            = [Placeholder "No videos found in /videos (mp4, webm)."])
        /\ (pictures = [] <->
            picturesList q
            = [Placeholder "No pictures found in /pictures (jpg/jpeg)."])
        /\ (videos = [] /\ pictures = [] ->
            status_text q = "No media found." /\ status_display q = "block")
        /\ (videos <> [] \/ pictures <> [] ->
            status_text q = "" /\ status_display q = "none")
        /\ (forall name badge asImage,
              MediaItem name badge asImage ∈ videoList q ->
              asImage = false /\ In badge ["MP4"; "WEBM"])
        /\ (forall name badge asImage,
              MediaItem name badge asImage ∈ picturesList q ->
              asImage = true /\ In badge ["JPG"; "JPEG"])).
Proof.
  split.
  - intros e Hne He. unfold loaded_page.
    by rewrite (serve_list_error fs e Hne He).
  - intros ve pe Hv Hp Hslash videos pictures q.
    assert (q = loadVideos
                  (FetchResponse
                     {| status := 200; headers := [];
                        body := JsonMedia videos pictures |}) p) as Hq.
    { unfold q, loaded_page. by rewrite (serve_list_ok fs ve pe Hv Hp). }
    assert (videoList q
            = renderList videos false "No videos found in /videos (mp4, webm)."
            /\ picturesList q
               = renderList pictures true
                   "No pictures found in /pictures (jpg/jpeg).") as [HV HP].
    { rewrite Hq. unfold loadVideos. cbn [response_ok status negb andb body
        json_media Z.leb Z.compare Pos.compare Pos.compare_cont].
      by destruct videos, pictures. }
    assert (forall name, name ∈ videos ->
              no_slash (list_ascii_of_string name) = true
              /\ In (extOf name) ["MP4"; "WEBM"]) as Hvideo.
    { intros name Hin.
      apply elem_of_sorted_media in Hin as (e & He & _ & <- & Hext).
      assert (no_slash (list_ascii_of_string (d_name e)) = true) as Hns
        by (apply Hslash, elem_of_app; by left).
      split; [done|].
      apply video_extensions_iff in Hext. simpl in Hext.
      destruct Hext as [He' | [He' | []]]; symmetry in He';
        rewrite (extOf_of_extension _ _ Hns He'); simpl; auto. }
    assert (forall name, name ∈ pictures ->
              no_slash (list_ascii_of_string name) = true
              /\ In (extOf name) ["JPG"; "JPEG"]) as Hpicture.
    { intros name Hin.
      apply elem_of_sorted_media in Hin as (e & He & _ & <- & Hext).
      assert (no_slash (list_ascii_of_string (d_name e)) = true) as Hns
        by (apply Hslash, elem_of_app; by right).
      split; [done|].
      apply image_extensions_iff in Hext. simpl in Hext.
      destruct Hext as [He' | [He' | []]]; symmetry in He';
        rewrite (extOf_of_extension _ _ Hns He'); simpl; auto. }
    rewrite HV, HP, !item_names_render.
    split; [done|]. split; [done|].
    split; [by destruct videos|]. split; [by destruct pictures|].
    split; [|split; [|split]].
    + intros [Hv0 Hp0]. rewrite Hq, Hv0, Hp0. done.
    + intros Hne. rewrite Hq. unfold loadVideos.
      destruct videos, pictures; [by destruct Hne|done..].
    + intros name badge asImage Hin.
      destruct videos as [|v vs]; unfold renderList in Hin.
      * apply list_elem_of_singleton in Hin. discriminate Hin.
      * apply list_elem_of_fmap in Hin as (n & [= -> -> ->] & Hn).
        split; [done|]. by apply Hvideo.
    + intros name badge asImage Hin.
      destruct pictures as [|v vs]; unfold renderList in Hin.
      * apply list_elem_of_singleton in Hin. discriminate Hin.
      * apply list_elem_of_fmap in Hin as (n & [= -> -> ->] & Hn).
        split; [done|]. by apply Hpicture.
Qed.

End Page.

Lemma page_after_load_witness :
  item_names (videoList (loaded_page (H := demo_platform) demo_library
                           demo_page))
  = ["a.mp4"; "clip.webm"]
  /\ item_names (picturesList (loaded_page (H := demo_platform) demo_library
                                 demo_page))
     = ["a.jpeg"; "b.JPG"]
  /\ status_text (loaded_page (H := demo_platform) demo_library demo_page)
     = ""
  /\ status_display (loaded_page (H := demo_platform) demo_library demo_page)
     = "none".
Proof.
  pose proof (proj2 (page_after_load (H := demo_platform) demo_library
                       demo_page)
                demo_videos demo_pictures) as Hload.
  destruct Hload as (Hv & Hp & _ & _ & _ & Hs & _).
  - right. vm_compute. reflexivity.
  - right. vm_compute. reflexivity.
  - intros e He. apply list_elem_of_In in He. simpl in He.
    repeat (destruct He as [<-|He]; [vm_compute; reflexivity|]). done.
  - split; [exact Hv|]. split; [exact Hp|].
    apply Hs. left. vm_compute. discriminate.
Defined.

(** ** Where the claims as first stated fail *)

Lemma not_single_range_form :
  forall d1 d2,
    d1 <> "" -> all_digits d1 = true -> all_digits d2 = true ->
    "bytes=0-1,3-4" <> "bytes=" +:+ d1 +:+ "-" +:+ d2.
Proof.
  intros d1 d2 Hne Hd1 Hd2 Heq.
  change "bytes=0-1,3-4" with ("bytes=" +:+ "0-1,3-4") in Heq.
  apply (inj (String.app "bytes=")) in Heq.
  pose proof (span_digits_all d1 ("-" +:+ d2) Hd1 hyphen_not_digit) as Hspan.
  rewrite <- Heq in Hspan. vm_compute in Hspan.
  injection Hspan as <- <-. done.
Qed.

(** C2 as first stated fails: a comma-separated header is not of the
    single-range form and is answered 206 with its first range; the empty
    header is answered 200. *)
Lemma malformed_range_counterexample :
  (forall d1 d2,
     d1 <> "" -> all_digits d1 = true -> all_digits d2 = true ->
     "bytes=0-1,3-4" <> "bytes=" +:+ d1 +:+ "-" +:+ d2)
  /\ serve (stream_handler (H := demo_platform) demo_fs
              (mk_request "a.mp4" (Some "bytes=0-1,3-4")))
     = (Some {| status := 206;
                headers := [ ("Content-Range", HStr "bytes 0-1/5");
                             ("Accept-Ranges", HStr "bytes");
                             ("Content-Length", HNum 2);
                             ("Content-Type", HStr "video/mp4") ];
                body := Stream [Byte.x61; Byte.x62] |},
        [ OpStat "/srv/videos/a.mp4";
          OpCreateReadStream "/srv/videos/a.mp4" (Some (0, 1)) ])
  /\ serve (stream_handler (H := demo_platform) demo_fs
              (mk_request "a.mp4" (Some "")))
     = (Some {| status := 200;
                headers := [ ("Content-Length", HNum 5);
                             ("Content-Type", HStr "video/mp4") ];
                body := Stream demo_data |},
        [ OpStat "/srv/videos/a.mp4";
          OpCreateReadStream "/srv/videos/a.mp4" None ]).
Proof.
  split; [exact not_single_range_form|]. split; vm_compute; reflexivity.
Qed.

(** C6 as first stated fails: a request with an invalid [Range] header
    has the file examined with [stat] before it is refused, and is
    answered 404 rather than 416 when the file is missing. *)
Lemma validation_order_counterexample :
  serve (stream_handler (H := demo_platform) demo_fs
           (mk_request "a.mp4" (Some "junk")))
  = (Some (send 416 "Malformed Range header."), [OpStat "/srv/videos/a.mp4"])
  /\ serve (stream_handler (H := demo_platform) demo_fs
              (mk_request "a.mp4" (Some "bytes=9-")))
     = (Some (send 416 "Requested range not satisfiable."),
        [OpStat "/srv/videos/a.mp4"])
  /\ serve (stream_handler (H := demo_platform) demo_fs
              (mk_request "gone.mp4" (Some "junk")))
     = (Some (send 404 "Not found."), [OpStat "/srv/videos/gone.mp4"]).
Proof. repeat split; vm_compute; reflexivity. Qed.

(** C7 as first stated fails: a file that [stat] finds but that cannot
    be opened is answered 200 with an empty body, not 500. *)
Lemma access_failures_counterexample :
  stat demo_fs "/srv/videos/locked.mp4" = inr 5
  /\ open_read demo_fs "/srv/videos/locked.mp4" = inl EACCES
  /\ serve (stream_handler (H := demo_platform) demo_fs
              (mk_request "locked.mp4" None))
     = (Some {| status := 200;
                headers := [ ("Content-Length", HNum 5);
                             ("Content-Type", HStr "video/mp4") ];
                body := Stream [] |},
        [ OpStat "/srv/videos/locked.mp4";
          OpCreateReadStream "/srv/videos/locked.mp4" None ]).
Proof. repeat split; vm_compute; reflexivity. Qed.

(** C10 as first stated fails: for an empty file, the empty [Range]
    header is present and is answered 200, not 416. *)
Lemma empty_file_counterexample :
  demo_fs !! "/srv/videos/empty.mp4" = Some (File [] true)
  /\ serve (stream_handler (H := demo_platform) demo_fs
              (mk_request "empty.mp4" (Some "")))
     = (Some {| status := 200;
                headers := [ ("Content-Length", HNum 0);
                             ("Content-Type", HStr "video/mp4") ];
                body := Stream [] |},
        [ OpStat "/srv/videos/empty.mp4";
          OpCreateReadStream "/srv/videos/empty.mp4" None ]).
Proof. split; vm_compute; reflexivity. Qed.

(** C9 at a partition whose first interval is empty ([k = 0]): the header
    for [[0, 0)] reads ["bytes=0--1"]; the pattern matches its first seven
    characters and the whole file is served, so the bytes kept from the
    three requests are the file twice. *)
Lemma partition_first_interval_empty :
  range_header 0 (Some (0 - 1)) = "bytes=0--1"
  /\ range_match "bytes=0--1" = Some ("0", "")
  /\ ok_body (serve (stream_handler (H := demo_platform) demo_fs
                       (interval_request "a.mp4" 0 0)))
     = demo_data
  /\ ok_body (serve (stream_handler (H := demo_platform) demo_fs
                       (interval_request "a.mp4" 0 0)))
     ++ ok_body (serve (stream_handler (H := demo_platform) demo_fs
                          (interval_request "a.mp4" 0 1)))
     ++ ok_body (serve (stream_handler (H := demo_platform) demo_fs
                          (interval_request "a.mp4" 1 (file_size demo_data))))
     = demo_data ++ demo_data.
Proof. repeat split; vm_compute; reflexivity. Qed.
